(** * The versioned object index of lakeFS ([index/indexer.go])

    A shallow embedding of the index orchestration layer: the operations of
    [KVIndex] are state-passing functions over one repository's store.  The
    packages the index only calls ([model], [store], [merkle], [dag],
    [ident], the validators) are either small records and an in-memory store,
    or parameters of the development. *)

From Stdlib Require Import ZArith QArith Ascii String.
From stdpp Require Import gmap strings list fin_maps.

Local Close Scope Q_scope.
Local Open Scope string_scope.

(** ** Records of package [model]

    Modelled from the spec: package [model] is generated protobuf code that
    is not part of [index/indexer.go]; the records carry the fields the
    indexer reads and writes.  Go's [int64] timestamps and sizes are only
    copied, never computed with, so they are plain [Z]. *)

Inductive Entry_Type := Entry_OBJECT | Entry_TREE.

Record Object := mkObject {
  Object_PhysicalAddress : string;
  Object_Size : Z;
  Object_Checksum : string;
  Object_Metadata : gmap string string
}.

Record Entry := mkEntry {
  Entry_Name : string;
  Entry_Address : string;
  Entry_Typ : Entry_Type;
  Entry_Timestamp : Z;
  Entry_Size : Z;
  Entry_Checksum : string
}.

(** [Entry] is a pointer in Go and may be nil. *)
Record WorkspaceEntry := mkWorkspaceEntry {
  WorkspaceEntry_Path : string;
  WorkspaceEntry_Entry : option Entry;
  WorkspaceEntry_Tombstone : bool
}.

Record Branch := mkBranch {
  Branch_Name : string;
  Branch_Commit : string;
  Branch_CommitRoot : string;
  Branch_WorkspaceRoot : string
}.

Record Commit := mkCommit {
  Commit_Address : string;
  Commit_Tree : string;
  Commit_Parents : list string;
  Commit_Committer : string;
  Commit_Message : string;
  Commit_Timestamp : Z;
  Commit_Metadata : gmap string string
}.

(** [PartialCommitRatio] is a [float32] in Go.  It is only compared with a
    draw of [rand.Float32]; finite floats compare like the rationals they
    denote, so the ratio is a [Q]. *)
Record Repo := mkRepo {
  Repo_RepoId : string;
  Repo_BucketName : string;
  Repo_CreationDate : Z;
  Repo_DefaultBranch : string;
  Repo_PartialCommitRatio : Q
}.

(** Protobuf getters are nil-safe: [we.GetEntry().GetAddress()]. *)
Definition Entry_GetAddress (e : option Entry) : string :=
  match e with Some e => Entry_Address e | None => "" end.

(** ** Differences of package [merkle] *)

Inductive DifferenceType :=
  DifferenceTypeAdded | DifferenceTypeRemoved | DifferenceTypeChanged.

Inductive DifferenceDirection :=
  DifferenceDirectionLeft | DifferenceDirectionRight | DifferenceDirectionConflict.

Record Difference := mkDifference {
  Difference_Type : DifferenceType;
  Difference_Direction : DifferenceDirection;
  Difference_Path : string;
  Difference_PathType : Entry_Type
}.

Abbreviation Differences := (list Difference).

#[global] Instance Entry_Type_eq_dec : EqDecision Entry_Type.
Proof. solve_decision. Defined.
#[global] Instance DifferenceType_eq_dec : EqDecision DifferenceType.
Proof. solve_decision. Defined.
#[global] Instance DifferenceDirection_eq_dec : EqDecision DifferenceDirection.
Proof. solve_decision. Defined.

(** ** Errors

    [db.ErrNotFound], the state errors of [index/errors], validation errors
    and any other error a store call may surface. *)

Inductive error :=
  | ErrNotFound
  | ErrBranchNotFound
  | ErrBranchAlreadyExists
  | ErrRepoExists
  | ErrDestinationNotCommitted
  | ErrNoMergeBase
  | ErrMergeConflict
  | ErrMergeUpdateFailed
  | ErrValidation (what : string)
  | ErrStorage (what : string).

#[global] Instance error_eq_dec : EqDecision error.
Proof. solve_decision. Defined.

(** [xerrors.Is(err, db.ErrNotFound)].  Modelled from the spec: the not-found
    kinds of error all derive from the common [NotFound]. *)
Definition is_ErrNotFound (e : error) : bool :=
  match e with
  | ErrNotFound | ErrBranchNotFound => true
  | _ => false
  end.

Inductive result (A : Type) :=
  | Ok (a : A)
  | Fail (e : error).
Arguments Ok {A} a.
Arguments Fail {A} e.

(** ** The repository store

    Modelled from the spec: package [store] is not part of
    [index/indexer.go].  One repository's records, keyed the way the store
    contract names them; tree nodes are the ordered child lists the Merkle
    engine reads and writes. *)

Record Store := mkStore {
  st_repo : option Repo;
  st_branches : gmap string Branch;
  st_commits : gmap string Commit;
  st_objects : gmap string Object;
  st_workspace : gmap string (gmap string WorkspaceEntry);
  st_trees : gmap string (list Entry)
}.

(** A computation inside a transaction: it returns a value or the first
    error, together with the store as the calls so far left it. *)
Definition Tx (St A : Type) : Type := St -> result A * St.

Definition ret {St A} (a : A) : Tx St A := fun s => (Ok a, s).
Definition fail {St A} (e : error) : Tx St A := fun s => (Fail e, s).
Definition bind {St A B} (m : Tx St A) (k : A -> Tx St B) : Tx St B :=
  fun s => match m s with
           | (Ok a, s') => k a s'
           | (Fail e, s') => (Fail e, s')
           end.
(** [v, err := call(); if err != nil { ... }] with a handler for the error. *)
Definition on_error {St A B} (m : Tx St A) (k : A -> Tx St B) (h : error -> Tx St B)
  : Tx St B :=
  fun s => match m s with
           | (Ok a, s') => k a s'
           | (Fail e, s') => h e s'
           end.

Declare Scope tx_scope.
Delimit Scope tx_scope with tx.
Notation "x <- m ;; k" := (bind m (fun x => k))
  (at level 100, m at next level, right associativity) : tx_scope.
Notation "m ;;; k" := (bind m (fun _ => k))
  (at level 100, right associativity) : tx_scope.
Local Open Scope tx_scope.

(** The store calls of a repository transaction, as the failure oracle sees
    them. *)
Inductive Call :=
  | CReadRepo
  | CWriteRepo
  | CReadBranch (name : string)
  | CWriteBranch (name : string)
  | CReadCommit (addr : string)
  | CWriteCommit (addr : string)
  | CReadObject (addr : string)
  | CWriteObject (addr : string)
  | CReadFromWorkspace (branch path : string)
  | CWriteToWorkspacePath (branch path : string)
  | CListWorkspace (branch : string)
  | CDeleteWorkspacePath (branch path : string)
  | CClearWorkspace (branch : string).

(** ** Collaborators of the index

    Packages the indexer imports but that are not part of
    [index/indexer.go] are interfaces here; every theorem holds for each of
    their implementations. *)

(** Which store calls fail, and with which error: a store call first asks
    the oracle, so that any storage error can be surfaced at any call.  The
    oracle answers by the call and its keys, the same way for the whole of
    a transaction. *)
Class Faults := { fault : Call -> option error }.

(** Package [ident]: content hashes and the syntax of a hash. *)
Class Ident := {
  ident_IsHash : string -> bool;
  ident_Hash_Object : Object -> string;
  ident_Hash_Commit : Commit -> string;
  ident_Empty : string
}.

(** Package [path]. *)
Class Path := {
  path_String : string -> string;
  path_Basename : string -> string
}.

(** Packages [merkle] and [dag].  [GetObject], [GetEntry], [Diff] and
    [FindLowestCommonAncestor] are called with a
    [store.RepoReadOnlyOperations] in the source, so they are functions of
    the store that cannot change it; [Update] gets the read-write
    transaction and returns the root of the new tree. *)
Class Merkle := {
  merkle_GetObject : string -> string -> Store -> result Object;
  merkle_GetEntry : string -> string -> Entry_Type -> Store -> result Entry;
  merkle_Update : string -> list WorkspaceEntry -> Tx Store string;
  merkle_Diff : string -> string -> string -> Store -> result Differences;
  dag_FindLowestCommonAncestor : string -> string -> Store -> result (option Commit)
}.

(** The validators of package [index] (a file of their own): each returns
    the error it found, if any. *)
Class Validators := {
  ValidateRepoId : string -> option error;
  ValidateRef : string -> option error;
  ValidatePath : string -> option error;
  ValidateCommitMessage : string -> option error
}.

(** Modelled from the spec: [ValidateAll] is not part of
    [index/indexer.go]; validation errors are raised before any transaction,
    the first one found. *)
Fixpoint ValidateAll (checks : list (option error)) : option error :=
  match checks with
  | [] => None
  | Some e :: _ => Some e
  | None :: rest => ValidateAll rest
  end.

(** [p := strings.Split(path, "/"); p[len(p)-1]]: the text after the last
    slash. *)
Fixpoint last_segment_from (cur s : string) : string :=
  match s with
  | EmptyString => cur
  | String c rest =>
      if Ascii.eqb c "/"%char then last_segment_from "" rest
      else last_segment_from (cur ++ String c "") rest
  end.
Definition last_segment (s : string) : string := last_segment_from "" s.

(** Field updates of the store. *)
Definition set_repo (r : option Repo) (s : Store) : Store :=
  mkStore r (st_branches s) (st_commits s) (st_objects s) (st_workspace s) (st_trees s).
Definition set_branches (b : gmap string Branch) (s : Store) : Store :=
  mkStore (st_repo s) b (st_commits s) (st_objects s) (st_workspace s) (st_trees s).
Definition set_commits (c : gmap string Commit) (s : Store) : Store :=
  mkStore (st_repo s) (st_branches s) c (st_objects s) (st_workspace s) (st_trees s).
Definition set_objects (o : gmap string Object) (s : Store) : Store :=
  mkStore (st_repo s) (st_branches s) (st_commits s) o (st_workspace s) (st_trees s).
Definition set_workspace (w : gmap string (gmap string WorkspaceEntry)) (s : Store) : Store :=
  mkStore (st_repo s) (st_branches s) (st_commits s) (st_objects s) w (st_trees s).
Definition set_trees (t : gmap string (list Entry)) (s : Store) : Store :=
  mkStore (st_repo s) (st_branches s) (st_commits s) (st_objects s) (st_workspace s) t.

(** The workspace of one branch, by path. *)
Definition workspace_of (branch : string) (s : Store) : gmap string WorkspaceEntry :=
  default ∅ (st_workspace s !! branch).

Section StoreOperations.
Context `{!Faults}.

(** Modelled from the spec: the calls of [store.RepoOperations], which is
    not part of [index/indexer.go].  A store call returns the oracle's
    error if it has one and does its work otherwise. *)
Definition call {A} (c : Call) (m : Tx Store A) : Tx Store A :=
  match fault c with
  | Some e => fail e
  | None => m
  end.

(** Modelled from the spec: a read of the store returns the record, or
    [db.ErrNotFound] when it is missing, and changes nothing. *)
Definition lookup_or_not_found {A} (o : Store -> option A) : Tx Store A :=
  fun s => match o s with
           | Some a => (Ok a, s)
           | None => (Fail ErrNotFound, s)
           end.

(** Modelled from the spec: [ReadRepo] and [WriteRepo] of the store. *)
Definition ReadRepo : Tx Store Repo :=
  call CReadRepo (lookup_or_not_found st_repo).
Definition WriteRepo (repo : Repo) : Tx Store unit :=
  call CWriteRepo (fun s => (Ok tt, set_repo (Some repo) s)).

(** Modelled from the spec: [ReadBranch] and [WriteBranch] of the store. *)
Definition ReadBranch (name : string) : Tx Store Branch :=
  call (CReadBranch name) (lookup_or_not_found (fun s => st_branches s !! name)).
Definition WriteBranch (name : string) (b : Branch) : Tx Store unit :=
  call (CWriteBranch name)
    (fun s => (Ok tt, set_branches (<[name := b]> (st_branches s)) s)).

(** Modelled from the spec: [ReadCommit] and [WriteCommit] of the store. *)
Definition ReadCommit (addr : string) : Tx Store Commit :=
  call (CReadCommit addr) (lookup_or_not_found (fun s => st_commits s !! addr)).
Definition WriteCommit (addr : string) (c : Commit) : Tx Store unit :=
  call (CWriteCommit addr)
    (fun s => (Ok tt, set_commits (<[addr := c]> (st_commits s)) s)).

(** Modelled from the spec: [ReadObject] and [WriteObject] of the store
    ([tx.ReadObject], [tx.WriteObject]). *)
Definition tx_ReadObject (addr : string) : Tx Store Object :=
  call (CReadObject addr) (lookup_or_not_found (fun s => st_objects s !! addr)).
Definition tx_WriteObject (addr : string) (o : Object) : Tx Store unit :=
  call (CWriteObject addr)
    (fun s => (Ok tt, set_objects (<[addr := o]> (st_objects s)) s)).

(** Modelled from the spec: the workspace calls of the store.  Workspace
    entries are kept by branch name and path; no call looks at the branch
    records, and the listing is in the order of the paths. *)
Definition ReadFromWorkspace (branch path : string) : Tx Store WorkspaceEntry :=
  call (CReadFromWorkspace branch path)
    (lookup_or_not_found (fun s => workspace_of branch s !! path)).
Definition WriteToWorkspacePath (branch path : string) (we : WorkspaceEntry)
  : Tx Store unit :=
  call (CWriteToWorkspacePath branch path)
    (fun s => (Ok tt,
       set_workspace (<[branch := <[path := we]> (workspace_of branch s)]> (st_workspace s)) s)).
Definition ListWorkspace (branch : string) : Tx Store (list WorkspaceEntry) :=
  call (CListWorkspace branch)
    (fun s => (Ok ((map_to_list (workspace_of branch s)).*2), s)).
Definition DeleteWorkspacePath (branch path : string) : Tx Store unit :=
  call (CDeleteWorkspacePath branch path)
    (fun s => (Ok tt,
       set_workspace (<[branch := delete path (workspace_of branch s)]> (st_workspace s)) s)).
Definition ClearWorkspace (branch : string) : Tx Store unit :=
  call (CClearWorkspace branch)
    (fun s => (Ok tt, set_workspace (delete branch (st_workspace s)) s)).

(** Modelled from the spec: [RepoTransact] and [RepoReadTransact] belong
    to the store.  The first error of the function aborts the transaction
    and no partial state reaches the store; a read transaction hands the
    function the read-only calls. *)
Definition RepoTransact {A} (repoId : string) (fn : Tx Store A) : Tx Store A :=
  fun s => match fn s with
           | (Ok a, s') => (Ok a, s')
           | (Fail e, _) => (Fail e, s)
           end.
Definition RepoReadTransact {A} (repoId : string) (fn : Tx Store A) : Tx Store A :=
  fn.
End StoreOperations.

(** A function that only reads the store. *)
Definition readonly {A} (f : Store -> result A) : Tx Store A :=
  fun s => (f s, s).

(** ** The index ([index/indexer.go]) *)

(** [DefaultPartialCommitRatio] and [DefaultBranch]. *)
Definition DefaultPartialCommitRatio : Q := 1%Q.
Definition DefaultBranch : string := "master".

(** The [reference] a ref resolves to; [branch] is nil for a commit. *)
Record reference := mkreference {
  reference_commit : Commit;
  reference_branch : option Branch;
  reference_isBranch : bool
}.

(** Nil-safe getters of a branch pointer. *)
Definition Branch_GetName (b : option Branch) : string :=
  match b with Some b => Branch_Name b | None => "" end.
Definition Branch_GetWorkspaceRoot (b : option Branch) : string :=
  match b with Some b => Branch_WorkspaceRoot b | None => "" end.

(** [shouldPartiallyCommit]: [chosen] is the draw of [rand.Float32()], a
    number of the half-open interval from 0 to 1. *)
Definition shouldPartiallyCommit (chosen : Q) (repo : Repo) : bool :=
  match (chosen ?= Repo_PartialCommitRatio repo)%Q with
  | Lt => true
  | _ => false
  end.

(** A call whose results the caller does not look at. *)
Definition discard {St A} (m : Tx St A) : Tx St unit :=
  fun s => (Ok tt, snd (m s)).

(** A transaction function together with a variable of its caller that it
    assigns to. *)
Record Env (V : Type) := mkEnv { env_tx : Store; env_var : V }.
Arguments mkEnv {V} env_tx env_var.
Arguments env_tx {V} e.
Arguments env_var {V} e.

Definition inTx {V A} (m : Tx Store A) : Tx (Env V) A :=
  fun env => let (r, s') := m (env_tx env) in (r, mkEnv s' (env_var env)).
Definition getVar {V} : Tx (Env V) V :=
  fun env => (Ok (env_var env), env).
Definition setVar {V} (v : V) : Tx (Env V) unit :=
  fun env => (Ok tt, mkEnv (env_tx env) v).

(** Modelled from the spec: [RepoTransact] run on a function that assigns
    to a variable of its caller; an abort undoes the store, not the
    variable. *)
Definition RepoTransact_capturing {V A} (repoId : string) (fn : Tx (Env V) A)
  : Tx (Env V) A :=
  fun env => match fn env with
             | (Ok a, env') => (Ok a, env')
             | (Fail e, env') => (Fail e, mkEnv (env_tx env) (env_var env'))
             end.

(** The first loop of [Merge]: one difference. *)
Definition Merge_scan_step (acc : bool * Differences) (dif : Difference)
  : bool * Differences :=
  let (isConflict, mergeOperations) := acc in
  (if decide (Difference_Direction dif = DifferenceDirectionConflict)
   then true else isConflict,
   if decide (Difference_Direction dif ≠ DifferenceDirectionRight)
   then (mergeOperations ++ [dif])%list else mergeOperations).

(** The merge operations of a list of differences, in the words of the
    specification: the differences whose direction is not [right]. *)
Definition merge_operations_of (df : Differences) : Differences :=
  filter (fun d => Difference_Direction d <> DifferenceDirectionRight) df.

Definition is_conflict (d : Difference) : bool :=
  bool_decide (Difference_Direction d = DifferenceDirectionConflict).

Section Index.
Context `{!Faults, !Ident, !Path, !Merkle, !Validators}.

(** [err := ValidateAll(...); if err != nil { return err }] *)
Definition validated {A} (checks : list (option error)) (m : Tx Store A)
  : Tx Store A :=
  match ValidateAll checks with
  | Some e => fail e
  | None => m
  end.

Definition partialCommit (branch : string) : Tx Store unit :=
  wsEntries <- ListWorkspace branch ;;
  if (length wsEntries =? 0)%nat then ret tt else
  on_error (ReadBranch branch)
    (fun branchData =>
       root <- merkle_Update (Branch_WorkspaceRoot branchData) wsEntries ;;
       ClearWorkspace branch ;;;
       WriteBranch branch
         (mkBranch branch (Branch_Commit branchData)
            (Branch_CommitRoot branchData) root))
    (fun err => if is_ErrNotFound err then ret tt else fail err).

Definition writeEntryToWorkspace (chosen : Q) (repo : Repo)
    (branch path : string) (entry : WorkspaceEntry) : Tx Store unit :=
  WriteToWorkspacePath branch path entry ;;;
  if shouldPartiallyCommit chosen repo then partialCommit branch else ret tt.

Definition resolveRef (ref : string) : Tx Store reference :=
  let asBranch :=
    branch <- ReadBranch ref ;;
    commit <- ReadCommit (Branch_Commit branch) ;;
    ret (mkreference commit (Some branch) true) in
  if ident_IsHash ref then
    on_error (ReadCommit ref)
      (fun commit => ret (mkreference commit None false))
      (fun err => if negb (is_ErrNotFound err) then fail err else asBranch)
  else asBranch.

(** The function [ReadObject] runs in its read transaction. *)
Definition ReadObject_tx (ref path : string) : Tx Store Object :=
  ReadRepo ;;;
  reference <- resolveRef ref ;;
  if reference_isBranch reference then
    on_error (ReadFromWorkspace (Branch_GetName (reference_branch reference)) path)
      (fun we =>
         if WorkspaceEntry_Tombstone we then fail ErrNotFound
         else tx_ReadObject (Entry_GetAddress (WorkspaceEntry_Entry we)))
      (fun err =>
         if is_ErrNotFound err then
           readonly (merkle_GetObject
                       (Branch_GetWorkspaceRoot (reference_branch reference)) path)
         else fail err)
  else readonly (merkle_GetObject (Commit_Tree (reference_commit reference)) path).

Definition ReadObject (repoId ref path : string) : Tx Store Object :=
  validated [ValidateRepoId repoId; ValidateRef ref; ValidatePath path]
    (RepoReadTransact repoId (ReadObject_tx ref path)).


Definition WriteEntry (chosen : Q) (repoId branch path : string)
    (entry : option Entry) : Tx Store unit :=
  validated [ValidateRepoId repoId; ValidateRef branch; ValidatePath path]
    (RepoTransact repoId
       (repo <- ReadRepo ;;
        writeEntryToWorkspace chosen repo branch path
          (mkWorkspaceEntry path entry false))).

Definition WriteObject (chosen : Q) (timestamp : Z) (repoId branch path : string)
    (object : Object) : Tx Store unit :=
  validated [ValidateRepoId repoId; ValidateRef branch; ValidatePath path]
    (RepoTransact repoId
       (let addr := ident_Hash_Object object in
        tx_WriteObject addr object ;;;
        repo <- ReadRepo ;;
        writeEntryToWorkspace chosen repo branch path
          (mkWorkspaceEntry (path_String path)
             (Some (mkEntry (path_Basename path) addr Entry_OBJECT timestamp
                      (Object_Size object) (Object_Checksum object)))
             false))).

(** The tombstone [DeleteObject] stages. *)
Definition tombstone (path : string) (ts : Z) : WorkspaceEntry :=
  mkWorkspaceEntry path
    (Some (mkEntry (path_Basename path) "" Entry_OBJECT ts 0 "")) true.

(** The function [DeleteObject] runs in its transaction. *)
Definition DeleteObject_tx (chosen : Q) (ts : Z) (branch path : string)
  : Tx Store unit :=
  repo <- ReadRepo ;;
  ws <- on_error (ReadFromWorkspace branch path)
          (fun we => ret (Some we, 0%nat))
          (fun err => if is_ErrNotFound err then ret (None, 1%nat) else fail err) ;;
  let wsEntry := fst ws in
  br <- ReadBranch branch ;;
  let root := Branch_WorkspaceRoot br in
  mk <- on_error (readonly (merkle_GetEntry root path Entry_OBJECT))
          (fun e => ret (Some e, snd ws))
          (fun err => if is_ErrNotFound err then ret (None, (snd ws + 1)%nat)
                      else fail err) ;;
  let merkleEntry := fst mk in
  let notFoundCount := snd mk in
  if (notFoundCount =? 2)%nat then fail ErrNotFound else
  match wsEntry with
  | Some we =>
      if WorkspaceEntry_Tombstone we then fail ErrNotFound
      else DeleteWorkspacePath branch path
  | None => ret tt
  end ;;;
  match merkleEntry with
  | Some _ => writeEntryToWorkspace chosen repo branch path (tombstone path ts)
  | None => ret tt
  end.

Definition DeleteObject (chosen : Q) (ts : Z) (repoId branch path : string)
  : Tx Store unit :=
  validated [ValidateRepoId repoId; ValidateRef branch; ValidatePath path]
    (RepoTransact repoId (DeleteObject_tx chosen ts branch path)).

Definition doCommitUpdates (branchData : Branch) (committer message : string)
    (parents : list string) (metadata : gmap string string) (ts : Z)
  : Tx Store Commit :=
  let commit :=
    mkCommit "" (Branch_WorkspaceRoot branchData) parents committer message ts
      metadata in
  let commitAddr := ident_Hash_Commit commit in
  let commit :=
    mkCommit commitAddr (Commit_Tree commit) (Commit_Parents commit)
      (Commit_Committer commit) (Commit_Message commit) (Commit_Timestamp commit)
      (Commit_Metadata commit) in
  WriteCommit commitAddr commit ;;;
  let branchData :=
    mkBranch (Branch_Name branchData) commitAddr (Commit_Tree commit)
      (Commit_Tree commit) in
  WriteBranch (Branch_Name branchData) branchData ;;;
  ret commit.

(** The function [Commit] runs in its transaction. *)
Definition Commit_tx (ts : Z) (branch message committer : string)
    (metadata : gmap string string) : Tx Store Commit :=
  partialCommit branch ;;;
  branchData <- ReadBranch branch ;;
  doCommitUpdates branchData committer message [Branch_Commit branchData]
    metadata ts.

Definition KVIndex_Commit (ts : Z) (repoId branch message committer : string)
    (metadata : gmap string string) : Tx Store Commit :=
  validated [ValidateRepoId repoId; ValidateRef branch;
             ValidateCommitMessage message]
    (RepoTransact repoId (Commit_tx ts branch message committer metadata)).

Definition doDiff (repoId leftRef rightRef : string) (isMerge : bool)
  : Tx Store Differences :=
  lRef <- on_error (resolveRef leftRef) ret (fun _ => fail ErrBranchNotFound) ;;
  rRef <- on_error (resolveRef rightRef) ret (fun _ => fail ErrBranchNotFound) ;;
  commonCommits <-
    on_error (readonly (dag_FindLowestCommonAncestor
                     (Commit_Address (reference_commit lRef))
                     (Commit_Address (reference_commit rRef))))
      ret (fun _ => fail ErrNoMergeBase) ;;
  match commonCommits with
  | None => fail ErrNoMergeBase
  | Some commonCommits =>
      let leftTree :=
        if reference_isBranch lRef && negb isMerge
        then Branch_GetWorkspaceRoot (reference_branch lRef)
        else Commit_Tree (reference_commit lRef) in
      let rightTree := Commit_Tree (reference_commit rRef) in
      readonly (merkle_Diff leftTree rightTree (Commit_Tree commonCommits))
  end.

(** The second loop of [Merge]: the workspace entries of the merge
    operations, read from the source branch's workspace root. *)
Fixpoint Merge_entries (sourceRoot : string) (mergeOperations : Differences)
  : Tx Store (list WorkspaceEntry) :=
  match mergeOperations with
  | [] => ret []
  | dif :: rest =>
      e <- (if decide (Difference_Type dif ≠ DifferenceTypeRemoved) then
              readonly (merkle_GetEntry sourceRoot (Difference_Path dif)
                          (Difference_PathType dif))
            else
              ret (mkEntry (last_segment (Difference_Path dif)) ""
                     (Difference_PathType dif) 0 0 "")) ;;
      let w :=
        mkWorkspaceEntry (Difference_Path dif) (Some e)
          (bool_decide (Difference_Type dif = DifferenceTypeRemoved)) in
      wsEntries <- Merge_entries sourceRoot rest ;;
      ret (w :: wsEntries)
  end.

(** [Merge], after the check of the destination and up to the new root
    (from [doDiff] to the assignments of the new root to
    [destinationBranch]): the differences are scanned into
    [mergeOperations], the variable of [Merge] the function appends to,
    and applied to the destination's commit root.  Returns the updated
    [destinationBranch] and [sourceBranch].  The source logs the three
    errors after the conflict check with [Fatal] before returning them. *)
Definition Merge_prepare (repoId source destination : string)
    (destinationBranch : Branch) : Tx (Env Differences) (Branch * Branch) :=
  df <- inTx (doDiff repoId source destination true) ;;
  mergeOperations <- getVar ;;
  let scan := fold_left Merge_scan_step df (false, mergeOperations) in
  setVar (snd scan) ;;;
  if fst scan then fail ErrMergeConflict else
  sourceBranch <- inTx (ReadBranch source) ;;
  mergeOperations <- getVar ;;
  wsEntries <-
    inTx (Merge_entries (Branch_WorkspaceRoot sourceBranch) mergeOperations) ;;
  newRoot <-
    on_error (inTx (merkle_Update (Branch_CommitRoot destinationBranch) wsEntries))
      ret (fun _ => fail ErrMergeUpdateFailed) ;;
  ret (mkBranch (Branch_Name destinationBranch) (Branch_Commit destinationBranch)
         newRoot newRoot,
       sourceBranch).

(** [Merge] after the check of the destination: [Merge_prepare], then the
    merge commit, whose results are not looked at, then
    [return mergeOperations, nil]. *)
Definition Merge_apply (ts : Z) (repoId source destination userId : string)
    (destinationBranch : Branch) : Tx (Env Differences) Differences :=
  p <- Merge_prepare repoId source destination destinationBranch ;;
  let destinationBranch := fst p in
  let sourceBranch := snd p in
  let parents := [Branch_Commit destinationBranch; Branch_Commit sourceBranch] in
  let commitMessage := "Merge branch " ++ source ++ " into " ++ destination in
  discard (inTx (doCommitUpdates destinationBranch userId commitMessage parents
                   ∅ ts)) ;;;
  getVar.

(** The function [Merge] runs in its transaction: the check that the
    destination has no uncommitted changes, then [Merge_apply]. *)
Definition Merge_tx (ts : Z) (repoId source destination userId : string)
  : Tx (Env Differences) Differences :=
  destinationBranch <-
    on_error (inTx (ReadBranch destination)) ret (fun _ => fail ErrBranchNotFound) ;;
  l <- inTx (ListWorkspace destination) ;;
  if negb (String.eqb (Branch_CommitRoot destinationBranch)
             (Branch_WorkspaceRoot destinationBranch))
     || (0 <? length l)%nat
  then fail ErrDestinationNotCommitted
  else Merge_apply ts repoId source destination userId destinationBranch.

(** [Merge] returns the differences and the error side by side. *)
Definition Merge (ts : Z) (repoId source destination userId : string)
  : Store -> (Differences * option error) * Store :=
  fun s =>
    match ValidateAll [ValidateRepoId repoId; ValidateRef source;
                       ValidateRef destination] with
    | Some err => (([], Some err), s)
    | None =>
        let (r, env) :=
          RepoTransact_capturing repoId
            (Merge_tx ts repoId source destination userId) (mkEnv s []) in
        let mergeOperations := env_var env in
        match r with
        | Ok _ => ((mergeOperations, None), env_tx env)
        | Fail err =>
            if decide (err = ErrMergeConflict)
            then ((mergeOperations, Some err), env_tx env)
            else (([], Some err), env_tx env)
        end
    end.

Definition CreateRepo (creationDate : Z) (repoId bucketName defaultBranch : string)
  : Tx Store unit :=
  validated [ValidateRepoId repoId]
    (let repo :=
       mkRepo repoId bucketName creationDate defaultBranch
         DefaultPartialCommitRatio in
     RepoTransact repoId
       (on_error ReadRepo
          (fun _ => fail ErrRepoExists)
          (fun err =>
             if negb (is_ErrNotFound err) then fail err else
             WriteRepo repo ;;;
             let commit := mkCommit "" ident_Empty [] "" "" creationDate ∅ in
             let commitId := ident_Hash_Commit commit in
             let commit :=
               mkCommit commitId (Commit_Tree commit) (Commit_Parents commit)
                 (Commit_Committer commit) (Commit_Message commit)
                 (Commit_Timestamp commit) (Commit_Metadata commit) in
             WriteCommit commitId commit ;;;
             WriteBranch (Repo_DefaultBranch repo)
               (mkBranch (Repo_DefaultBranch repo) commitId (Commit_Tree commit)
                  (Commit_Tree commit))))).

(** *** Notions the properties are stated with *)

(** A ref that is not the address of a commit: it is not spelled like a
    hash, or the store has no commit of that address. *)
Definition names_no_commit (ref : string) (s : Store) : Prop :=
  ident_IsHash ref = false
  \/ exists e, ReadCommit ref s = (Fail e, s) /\ is_ErrNotFound e = true.

(** The store a folding partial commit leaves: the workspace of the branch
    cleared and the branch record written over the store [s1] that
    [Update] left. *)
Definition folded (branch : string) (br : Branch) (root : string) (s1 : Store)
  : Store :=
  set_branches
    (<[branch := mkBranch branch (Branch_Commit br) (Branch_CommitRoot br) root]>
       (st_branches s1))
    (set_workspace (delete branch (st_workspace s1)) s1).

End Index.

(** ** A small implementation of the collaborators

    Used to run the index on concrete repositories. *)

(** A store that never fails, and stores that fail on chosen calls. *)
Definition no_faults : Faults := {| fault := fun _ => None |}.

Definition failing_commit_writes : Faults :=
  {| fault := fun c => match c with
                       | CWriteCommit _ => Some (ErrStorage "disk full")
                       | _ => None
                       end |}.

Definition failing_branch_writes : Faults :=
  {| fault := fun c => match c with
                       | CWriteBranch _ => Some (ErrStorage "disk full")
                       | _ => None
                       end |}.

(** Hashes are spelled with a leading [#]. *)
Definition toy_IsHash (s : string) : bool :=
  match s with
  | String c _ => Ascii.eqb c "#"%char
  | EmptyString => false
  end.

Definition toy_Ident : Ident := {|
  ident_IsHash := toy_IsHash;
  ident_Hash_Object := fun o => "#o." ++ Object_Checksum o;
  ident_Hash_Commit := fun c => "#c." ++ Commit_Message c ++ "@" ++ Commit_Tree c;
  ident_Empty := "#empty"
|}.

Definition toy_Path : Path := {|
  path_String := fun p => p;
  path_Basename := last_segment
|}.

Definition accept_all : Validators := {|
  ValidateRepoId := fun _ => None;
  ValidateRef := fun _ => None;
  ValidatePath := fun _ => None;
  ValidateCommitMessage := fun m =>
    if String.eqb m "" then Some (ErrValidation "empty commit message") else None
|}.

(** A flat tree: the node of a root lists every object under it, named by
    its full path. *)
Definition toy_listing (root : string) (s : Store) : list Entry :=
  default [] (st_trees s !! root).

Definition toy_find (path : string) (typ : Entry_Type) (l : list Entry)
  : option Entry :=
  List.find (fun e => String.eqb (Entry_Name e) path
                      && bool_decide (Entry_Typ e = typ)) l.

Definition toy_GetEntry (root path : string) (typ : Entry_Type) (s : Store)
  : result Entry :=
  match toy_find path typ (toy_listing root s) with
  | Some e => Ok e
  | None => Fail ErrNotFound
  end.

Definition toy_GetObject (root path : string) (s : Store) : result Object :=
  match toy_GetEntry root path Entry_OBJECT s with
  | Ok e => match st_objects s !! Entry_Address e with
            | Some o => Ok o
            | None => Fail ErrNotFound
            end
  | Fail e => Fail e
  end.

Definition toy_apply (l : list Entry) (we : WorkspaceEntry) : list Entry :=
  let others :=
    List.filter (fun e => negb (String.eqb (Entry_Name e) (WorkspaceEntry_Path we))) l in
  if WorkspaceEntry_Tombstone we then others
  else match WorkspaceEntry_Entry we with
       | Some e =>
           (others ++ [mkEntry (WorkspaceEntry_Path we) (Entry_Address e)
                         (Entry_Typ e) (Entry_Timestamp e) (Entry_Size e)
                         (Entry_Checksum e)])%list
       | None => others
       end.

Definition toy_root_of (l : list Entry) : string :=
  match l with
  | [] => "#empty"
  | _ => "#t." ++ String.concat ","
                    (List.map (fun e => Entry_Name e ++ "=" ++ Entry_Address e) l)
  end.

Definition toy_Update (root : string) (entries : list WorkspaceEntry)
  : Tx Store string :=
  fun s =>
    let l := fold_left toy_apply entries (toy_listing root s) in
    let r := toy_root_of l in
    (Ok r, set_trees (<[r := l]> (st_trees s)) s).

(** One difference per path on which the three listings disagree. *)
Definition toy_diff_at (l r b : list Entry) (path : string) : option Difference :=
  let at_ x := Entry_Address <$> toy_find path Entry_OBJECT x in
  let (el, er) := (at_ l, at_ r) in
  let eb := at_ b in
  if decide (el = er) then None else
  let typ := match el, er with
             | Some _, None => DifferenceTypeAdded
             | None, Some _ => DifferenceTypeRemoved
             | _, _ => DifferenceTypeChanged
             end in
  let dir := if decide (er = eb) then DifferenceDirectionLeft
             else if decide (el = eb) then DifferenceDirectionRight
             else DifferenceDirectionConflict in
  Some (mkDifference typ dir path Entry_OBJECT).

Definition toy_Diff (left right base : string) (s : Store) : result Differences :=
  let l := toy_listing left s in
  let r := toy_listing right s in
  let b := toy_listing base s in
  let paths := remove_dups (List.map Entry_Name (l ++ r ++ b)%list) in
  Ok (omap (toy_diff_at l r b) paths).

(** The first-parent chain of a commit. *)
Fixpoint toy_chain (fuel : nat) (addr : string) (s : Store) : list string :=
  match fuel with
  | O => []
  | S fuel =>
      match st_commits s !! addr with
      | Some c =>
          addr :: match Commit_Parents c with
                  | p :: _ => toy_chain fuel p s
                  | [] => []
                  end
      | None => []
      end
  end.

Definition toy_FindLowestCommonAncestor (a b : string) (s : Store)
  : result (option Commit) :=
  let cb := toy_chain 16 b s in
  match List.find (fun x => bool_decide (x ∈ cb)) (toy_chain 16 a s) with
  | Some x => match st_commits s !! x with
              | Some c => Ok (Some c)
              | None => Fail ErrNotFound
              end
  | None => Ok None
  end.

Definition toy_Merkle : Merkle := {|
  merkle_GetObject := toy_GetObject;
  merkle_GetEntry := toy_GetEntry;
  merkle_Update := toy_Update;
  merkle_Diff := toy_Diff;
  dag_FindLowestCommonAncestor := toy_FindLowestCommonAncestor
|}.

Definition empty_store : Store := mkStore None ∅ ∅ ∅ ∅ ∅.

(** ** Sample repositories

    The scenarios of the specification, run on the small implementation. *)

Module Sample.
Section Sample.
#[local] Existing Instances no_faults toy_Ident toy_Path toy_Merkle accept_all.

Definition obj1 : Object := mkObject "s3://x" 3 "x" ∅.
Definition obj2 : Object := mkObject "s3://y" 4 "y" ∅.
Definition obj3 : Object := mkObject "s3://z" 5 "z" ∅.

(** A new repository with its default branch [main]. *)
Definition created : Store :=
  snd (CreateRepo 100 "r" "bucket" "main" empty_store).
(** [a/b.txt] written on [main] and folded into the tree. *)
Definition written : Store :=
  snd (WriteObject (1#2) 101 "r" "main" "a/b.txt" obj1 created).
(** ... and committed. *)
Definition committed : Store :=
  snd (KVIndex_Commit 102 "r" "main" "m1" "u" ∅ written).
(** Branch [dev] created from [main], with another [a/b.txt] committed. *)
Definition branched : Store :=
  snd (WriteBranch "dev"
         (mkBranch "dev" "#c.m1@#t.a/b.txt=#o.x" "#t.a/b.txt=#o.x" "#t.a/b.txt=#o.x")
         committed).
Definition diverged : Store :=
  snd (KVIndex_Commit 104 "r" "dev" "m2" "u" ∅
         (snd (WriteObject (1#2) 103 "r" "dev" "a/b.txt" obj2 branched))).
(** [main] changes [a/b.txt] too: uncommitted, then committed. *)
Definition main_dirty : Store :=
  snd (WriteObject (1#2) 106 "r" "main" "a/b.txt" obj3 diverged).
Definition conflicting : Store :=
  snd (KVIndex_Commit 107 "r" "main" "m3" "u" ∅ main_dirty).
(** A write staged in the workspace of [main] and not folded (a repository
    whose ratio is 0). *)
Definition staged : Store :=
  snd (WriteToWorkspacePath "main" "c.txt"
         (mkWorkspaceEntry "c.txt"
            (Some (mkEntry "c.txt" "#o.z" Entry_OBJECT 109 5 "z")) false)
         (snd (tx_WriteObject "#o.z" obj3 committed))).
(** A write on [ghost], a branch name without a branch record. *)
Definition orphaned : Store :=
  snd (WriteObject (1#2) 110 "r" "ghost" "a/b.txt" obj1 created).
(** [a/b.txt] of [main] staged again, and deleted, without folding. *)
Definition entry_ab : WorkspaceEntry :=
  mkWorkspaceEntry "a/b.txt"
    (Some (mkEntry "b.txt" "#o.z" Entry_OBJECT 112 5 "z")) false.
Definition restaged : Store :=
  snd (WriteToWorkspacePath "main" "a/b.txt" entry_ab
         (snd (tx_WriteObject "#o.z" obj3 committed))).
Definition tombstoned : Store :=
  snd (WriteToWorkspacePath "main" "a/b.txt" (tombstone "a/b.txt" 113) committed).
(** A branch whose name is spelled like a hash. *)
Definition hash_named : Store :=
  snd (WriteBranch "#feature"
         (mkBranch "#feature" "#c.m1@#t.a/b.txt=#o.x" "#t.a/b.txt=#o.x"
            "#t.a/b.txt=#o.x")
         committed).

(** The records these stores hold. *)
Definition repo0 : Repo := mkRepo "r" "bucket" 100 "main" 1.
Definition main0 : Branch := mkBranch "main" "#c.@#empty" "#empty" "#empty".
Definition commit1 : Commit :=
  mkCommit "#c.m1@#t.a/b.txt=#o.x" "#t.a/b.txt=#o.x" ["#c.@#empty"] "u" "m1" 102 ∅.
Definition main1 : Branch :=
  mkBranch "main" "#c.m1@#t.a/b.txt=#o.x" "#t.a/b.txt=#o.x" "#t.a/b.txt=#o.x".
Definition main3 : Branch :=
  mkBranch "main" "#c.m3@#t.a/b.txt=#o.z" "#t.a/b.txt=#o.z" "#t.a/b.txt=#o.z".
Definition dev2 : Branch :=
  mkBranch "dev" "#c.m2@#t.a/b.txt=#o.y" "#t.a/b.txt=#o.y" "#t.a/b.txt=#o.y".
Definition feature : Branch :=
  mkBranch "#feature" "#c.m1@#t.a/b.txt=#o.x" "#t.a/b.txt=#o.x" "#t.a/b.txt=#o.x".
Definition entry_c : WorkspaceEntry :=
  mkWorkspaceEntry "c.txt" (Some (mkEntry "c.txt" "#o.z" Entry_OBJECT 109 5 "z")) false.
Definition entry_ghost : WorkspaceEntry :=
  mkWorkspaceEntry "a/b.txt" (Some (mkEntry "b.txt" "#o.x" Entry_OBJECT 110 3 "x")) false.
Definition tree_ab : Entry := mkEntry "a/b.txt" "#o.x" Entry_OBJECT 101 3 "x".
Definition conflict_ab : Difference :=
  mkDifference DifferenceTypeChanged DifferenceDirectionConflict "a/b.txt" Entry_OBJECT.
Definition change_ab : Difference :=
  mkDifference DifferenceTypeChanged DifferenceDirectionLeft "a/b.txt" Entry_OBJECT.
Definition commit4 : Commit :=
  mkCommit "#c.m4@#t.a/b.txt=#o.x,c.txt=#o.z" "#t.a/b.txt=#o.x,c.txt=#o.z"
    ["#c.m1@#t.a/b.txt=#o.x"] "u" "m4" 111 ∅.
(** [staged] after a [Commit] on [main]. *)
Definition staged_committed : Store :=
  snd (KVIndex_Commit 111 "r" "main" "m4" "u" ∅ staged).
End Sample.
End Sample.

(** ** The rest of the index

    The operations of [index/indexer.go] on branches, commits, entries and
    diffs that are built from the same store calls. *)

(** The store call [DeleteBranch] and its failures. *)
Class BranchDeletionFaults := { fault_DeleteBranch : string -> option error }.

(** [xerrors.Errorf("could not read ref: %w", err)]: the error that wraps
    [err]. *)
Class Xerrors := { Errorf_could_not_read_ref : error -> error }.

(** [ValidateCommitID], a validator of package [index]. *)
Class CommitIdValidator := { ValidateCommitID : string -> option error }.

(** [IsRoot] of package [path]. *)
Class PathRoot := { path_IsRoot : string -> bool }.

(** Modelled from the spec: [DeleteBranch] of the store removes the branch
    record. *)
Definition tx_DeleteBranch `{!BranchDeletionFaults} (name : string) : Tx Store unit :=
  match fault_DeleteBranch name with
  | Some e => fail e
  | None => fun s => (Ok tt, set_branches (delete name (st_branches s)) s)
  end.

(** [gc]: its body is empty. *)
Definition gc (addr : string) : Tx Store unit := ret tt.

Section IndexRest.
Context `{!Faults, !Ident, !Path, !Merkle, !Validators}.
Context `{!BranchDeletionFaults, !Xerrors, !CommitIdValidator, !PathRoot}.

(** [readEntry]: the entry is a pointer, nil when the workspace entry holds
    none. *)
Definition readEntry (ref path : string) (typ : Entry_Type)
  : Tx Store (option Entry) :=
  ReadRepo ;;;
  reference <- resolveRef ref ;;
  let root := Commit_Tree (reference_commit reference) in
  let fromTree (root : string) :=
    entry <- readonly (merkle_GetEntry root path typ) ;;
    ret (Some entry) in
  if reference_isBranch reference then
    on_error (ReadFromWorkspace (Branch_GetName (reference_branch reference)) path)
      (fun we =>
         if WorkspaceEntry_Tombstone we then fail ErrNotFound
         else ret (WorkspaceEntry_Entry we))
      (fun err =>
         if negb (is_ErrNotFound err) then fail err
         else fromTree (Branch_GetWorkspaceRoot (reference_branch reference)))
  else fromTree root.

Definition ReadEntry (repoId branch path : string) (typ : Entry_Type)
  : Tx Store (option Entry) :=
  validated [ValidateRepoId repoId; ValidateRef branch; ValidatePath path]
    (RepoReadTransact repoId (readEntry branch path typ)).

Definition ReadEntryTree (repoId branch path : string) : Tx Store (option Entry) :=
  validated [ValidateRepoId repoId; ValidateRef branch; ValidatePath path]
    (ReadEntry repoId branch path Entry_TREE).

Definition ReadEntryObject (repoId branch path : string) : Tx Store (option Entry) :=
  validated [ValidateRepoId repoId; ValidateRef branch; ValidatePath path]
    (ReadEntry repoId branch path Entry_OBJECT).

(** The function [ResetBranch] runs in its transaction. *)
Definition ResetBranch_tx (branch : string) : Tx Store unit :=
  ClearWorkspace branch ;;;
  branchData <- ReadBranch branch ;;
  gc (Branch_WorkspaceRoot branchData) ;;;
  let branchData :=
    mkBranch (Branch_Name branchData) (Branch_Commit branchData)
      (Branch_CommitRoot branchData) (Branch_CommitRoot branchData) in
  WriteBranch branch branchData.

Definition ResetBranch (repoId branch : string) : Tx Store unit :=
  validated [ValidateRepoId repoId; ValidateRef branch]
    (RepoTransact repoId (ResetBranch_tx branch)).

(** The function [CreateBranch] runs in its transaction. *)
Definition CreateBranch_tx (branch ref : string) : Tx Store Branch :=
  on_error (ReadBranch branch)
    (fun _ => fail ErrBranchAlreadyExists)
    (fun err =>
       if negb (is_ErrNotFound err) then fail err else
       reference <-
         on_error (resolveRef ref) ret
           (fun err => fail (Errorf_could_not_read_ref err)) ;;
       let branchData :=
         mkBranch branch (Commit_Address (reference_commit reference))
           (Commit_Tree (reference_commit reference))
           (Commit_Tree (reference_commit reference)) in
       WriteBranch branch branchData ;;;
       ret branchData).

Definition CreateBranch (repoId branch ref : string) : Tx Store Branch :=
  validated [ValidateRepoId repoId; ValidateRef ref; ValidateRef branch]
    (RepoTransact repoId (CreateBranch_tx branch ref)).

Definition GetBranch (repoId branch : string) : Tx Store Branch :=
  validated [ValidateRepoId repoId; ValidateRef branch]
    (RepoReadTransact repoId (ReadBranch branch)).

Definition GetCommit (repoId commitId : string) : Tx Store Commit :=
  validated [ValidateRepoId repoId; ValidateCommitID commitId]
    (RepoReadTransact repoId (ReadCommit commitId)).

(** The function [DeleteBranch] runs in its transaction. *)
Definition DeleteBranch_tx (branch : string) : Tx Store unit :=
  branchData <- ReadBranch branch ;;
  ClearWorkspace branch ;;;
  gc (Branch_WorkspaceRoot branchData) ;;;
  tx_DeleteBranch branch.

Definition DeleteBranch (repoId branch : string) : Tx Store unit :=
  validated [ValidateRepoId repoId; ValidateRef branch]
    (RepoTransact repoId (DeleteBranch_tx branch)).

(** The function [DiffWorkspace] runs in its transaction. *)
Definition DiffWorkspace_tx (branch : string) : Tx Store Differences :=
  partialCommit branch ;;;
  branch <- ReadBranch branch ;;
  readonly (merkle_Diff (Branch_WorkspaceRoot branch) (Branch_CommitRoot branch)
              (Branch_CommitRoot branch)).

Definition DiffWorkspace (repoId branch : string) : Tx Store Differences :=
  validated [ValidateRepoId repoId; ValidateRef branch]
    (RepoTransact repoId (DiffWorkspace_tx branch)).

Definition Diff (repoId leftRef rightRef : string) : Tx Store Differences :=
  validated [ValidateRepoId repoId; ValidateRef leftRef; ValidateRef rightRef]
    (RepoReadTransact repoId (doDiff repoId leftRef rightRef false)).

(** The function [RevertCommit] runs in its transaction. *)
Definition RevertCommit_tx (branch commit : string) : Tx Store unit :=
  ClearWorkspace branch ;;;
  commitData <- ReadCommit commit ;;
  branchData <- ReadBranch branch ;;
  gc (Branch_WorkspaceRoot branchData) ;;;
  let branchData :=
    mkBranch (Branch_Name branchData) commit (Commit_Tree commitData)
      (Commit_Tree commitData) in
  WriteBranch branch branchData.

Definition RevertCommit (repoId branch commit : string) : Tx Store unit :=
  validated [ValidateRepoId repoId; ValidateRef branch; ValidateCommitID commit]
    (RepoTransact repoId (RevertCommit_tx branch commit)).

(** The function [revertPath] runs in its transaction.  For the root path
    it calls [ResetBranch], which opens a transaction of its own: that
    transaction runs on the store of the enclosing one, which has made no
    call yet. *)
Definition revertPath_tx (repoId branch path : string) (typ : Entry_Type)
  : Tx Store unit :=
  if path_IsRoot path then ResetBranch repoId branch else
  partialCommit branch ;;;
  branchData <- ReadBranch branch ;;
  let workspaceRoot := Branch_WorkspaceRoot branchData in
  let commitRoot := Branch_CommitRoot branchData in
  workspaceEntry <-
    on_error (readonly (merkle_GetEntry commitRoot path typ))
      (fun commitEntry => ret (mkWorkspaceEntry path (Some commitEntry) false))
      (fun err =>
         if is_ErrNotFound err then
           pathEntry <- readonly (merkle_GetEntry workspaceRoot path typ) ;;
           ret (mkWorkspaceEntry path (Some pathEntry) true)
         else fail err) ;;
  newRoot <- merkle_Update workspaceRoot [workspaceEntry] ;;
  WriteBranch branch
    (mkBranch branch (Branch_Commit branchData) (Branch_CommitRoot branchData)
       newRoot).

Definition revertPath (repoId branch path : string) (typ : Entry_Type)
  : Tx Store unit :=
  RepoTransact repoId (revertPath_tx repoId branch path typ).

Definition RevertPath (repoId branch path : string) : Tx Store unit :=
  validated [ValidateRepoId repoId; ValidateRef branch; ValidatePath path]
    (revertPath repoId branch path Entry_TREE).

Definition RevertObject (repoId branch path : string) : Tx Store unit :=
  validated [ValidateRepoId repoId; ValidateRef branch; ValidatePath path]
    (revertPath repoId branch path Entry_OBJECT).

(** *** Notions the further properties are stated with *)

(** The commit [doCommitUpdates] builds. *)
Definition commit_of (branchData : Branch) (committer message : string)
    (parents : list string) (metadata : gmap string string) (ts : Z) : Commit :=
  mkCommit
    (ident_Hash_Commit
       (mkCommit "" (Branch_WorkspaceRoot branchData) parents committer message ts
          metadata))
    (Branch_WorkspaceRoot branchData) parents committer message ts metadata.

(** The workspace entry [Merge] makes of one merge operation. *)
Definition entry_of_operation (sourceRoot : string) (s : Store) (dif : Difference)
    (w : WorkspaceEntry) : Prop :=
  WorkspaceEntry_Path w = Difference_Path dif
  /\ (Difference_Type dif = DifferenceTypeRemoved ->
      WorkspaceEntry_Tombstone w = true
      /\ WorkspaceEntry_Entry w
         = Some (mkEntry (last_segment (Difference_Path dif)) ""
                   (Difference_PathType dif) 0 0 ""))
  /\ (Difference_Type dif <> DifferenceTypeRemoved ->
      WorkspaceEntry_Tombstone w = false
      /\ exists e,
           merkle_GetEntry sourceRoot (Difference_Path dif) (Difference_PathType dif) s
           = Ok e
           /\ WorkspaceEntry_Entry w = Some e).
End IndexRest.

(** No [/] in a string. *)
Fixpoint no_slash (s : string) : bool :=
  match s with
  | EmptyString => true
  | String c rest => negb (Ascii.eqb c "/"%char) && no_slash rest
  end.

(** More of the small implementation. *)
Definition branch_deletion_works : BranchDeletionFaults :=
  {| fault_DeleteBranch := fun _ => None |}.
Definition toy_Xerrors : Xerrors :=
  {| Errorf_could_not_read_ref := fun e => e |}.
Definition accept_commit_ids : CommitIdValidator :=
  {| ValidateCommitID := fun _ => None |}.
Definition toy_PathRoot : PathRoot :=
  {| path_IsRoot := fun p => String.eqb p "" |}.

(** ** Properties *)

(** [run_read H]: case analysis on the call whose store [H] says is left
    as it was. *)
Ltac run_read H :=
  match type of H with
  | snd (?m ?s) = ?s =>
      let s0 := fresh "s" in
      destruct (m s) as [[?|?] s0]; simpl in H; subst s0
  end.

Section StoreLemmas.
Context `{!Faults}.

(** The reading calls of the store leave it as it is. *)
Lemma lookup_or_not_found_state {A} (o : Store -> option A) s :
  snd (lookup_or_not_found o s) = s.
Proof. unfold lookup_or_not_found. by destruct (o s). Qed.

Lemma call_read_state {A} c (m : Tx Store A) s :
  (forall s, snd (m s) = s) -> snd (call c m s) = s.
Proof. intros Hm. unfold call. destruct (fault c); [done | apply Hm]. Qed.

Lemma ReadRepo_state s : snd (ReadRepo s) = s.
Proof. apply call_read_state, lookup_or_not_found_state. Qed.
Lemma ReadBranch_state name s : snd (ReadBranch name s) = s.
Proof. apply call_read_state. intros. apply lookup_or_not_found_state. Qed.
Lemma ReadCommit_state addr s : snd (ReadCommit addr s) = s.
Proof. apply call_read_state. intros. apply lookup_or_not_found_state. Qed.
Lemma tx_ReadObject_state addr s : snd (tx_ReadObject addr s) = s.
Proof. apply call_read_state. intros. apply lookup_or_not_found_state. Qed.
Lemma ReadFromWorkspace_state branch path s :
  snd (ReadFromWorkspace branch path s) = s.
Proof. apply call_read_state. intros. apply lookup_or_not_found_state. Qed.
Lemma ListWorkspace_state branch s : snd (ListWorkspace branch s) = s.
Proof. by apply call_read_state. Qed.

(** What a successful call says about the oracle and the records. *)
Lemma ReadBranch_Ok name s b s' :
  ReadBranch name s = (Ok b, s') ->
  fault (CReadBranch name) = None /\ st_branches s !! name = Some b /\ s' = s.
Proof.
  unfold ReadBranch, call, lookup_or_not_found, fail.
  destruct (fault _); [done |]. destruct (st_branches s !! name); [| done].
  by intros [= -> ->].
Qed.

Lemma ListWorkspace_Ok branch s l s' :
  ListWorkspace branch s = (Ok l, s') ->
  fault (CListWorkspace branch) = None
  /\ l = (map_to_list (workspace_of branch s)).*2 /\ s' = s.
Proof.
  unfold ListWorkspace, call, fail. destruct (fault _); [done |].
  by intros [= <- <-].
Qed.

Lemma ListWorkspace_nil branch s :
  fault (CListWorkspace branch) = None ->
  workspace_of branch s = ∅ ->
  ListWorkspace branch s = (Ok [], s).
Proof.
  intros Hf Hw. unfold ListWorkspace, call. rewrite Hf, Hw.
  by rewrite map_to_list_empty.
Qed.

Lemma workspace_of_cleared branch w s :
  workspace_of branch (set_workspace (delete branch w) s) = ∅.
Proof. unfold workspace_of. simpl. by rewrite lookup_delete_eq. Qed.

Lemma workspace_of_set_branches branch b s :
  workspace_of branch (set_branches b s) = workspace_of branch s.
Proof. done. Qed.
End StoreLemmas.

Section Properties.
Context `{!Faults, !Ident, !Path, !Merkle, !Validators}.

Lemma resolveRef_state ref s : snd (resolveRef ref s) = s.
Proof.
  assert (Hbranch : snd ((branch <- ReadBranch ref ;;
                          commit <- ReadCommit (Branch_Commit branch) ;;
                          ret (mkreference commit (Some branch) true)) s) = s).
  { unfold bind, ret.
    pose proof (ReadBranch_state ref s) as Hb. run_read Hb; [| done].
    pose proof (ReadCommit_state (Branch_Commit a) s) as Hc. by run_read Hc. }
  unfold resolveRef. destruct (ident_IsHash ref); [| done].
  unfold on_error, ret, fail.
  pose proof (ReadCommit_state ref s) as Hc. run_read Hc; [done |].
  by destruct (negb (is_ErrNotFound e)).
Qed.

(** C7: reference resolution.  A ref spelled like a hash that is the
    address of a commit resolves to that commit; any other ref (also one
    spelled like a hash for which the store has no commit) resolves to the
    branch of that name and the commit the branch points to; when the
    store has no such branch either, resolution fails with the store's
    not-found error.  Resolution leaves the store as it was. *)
Theorem resolveRef_spec (ref : string) (s : Store) :
  snd (resolveRef ref s) = s
  /\ (forall c, ident_IsHash ref = true -> ReadCommit ref s = (Ok c, s) ->
       resolveRef ref s = (Ok (mkreference c None false), s))
  /\ (forall b c, names_no_commit ref s ->
       ReadBranch ref s = (Ok b, s) ->
       ReadCommit (Branch_Commit b) s = (Ok c, s) ->
       resolveRef ref s = (Ok (mkreference c (Some b) true), s))
  /\ (forall e, names_no_commit ref s ->
       ReadBranch ref s = (Fail e, s) -> is_ErrNotFound e = true ->
       resolveRef ref s = (Fail e, s))
  /\ (names_no_commit ref s ->
       fault (CReadBranch ref) = None -> st_branches s !! ref = None ->
       resolveRef ref s = (Fail ErrNotFound, s)).
Proof.
  split; [apply resolveRef_state |].
  assert (Hbranch : forall r, names_no_commit ref s ->
            (b <- ReadBranch ref ;;
             c <- ReadCommit (Branch_Commit b) ;;
             ret (mkreference c (Some b) true)) s = r ->
            resolveRef ref s = r).
  { intros r Hn <-. unfold resolveRef.
    destruct Hn as [-> | (e & He & Hnf)]; [done |].
    destruct (ident_IsHash ref); [| done].
    unfold on_error at 1. rewrite He, Hnf. done. }
  split; [| split; [| split]].
  - intros c Hh Hc. unfold resolveRef. rewrite Hh. unfold on_error. by rewrite Hc.
  - intros b c Hn Hb Hc. apply Hbranch; [done |].
    unfold bind. rewrite Hb, Hc. done.
  - intros e Hn Hb _. apply Hbranch; [done |]. unfold bind. by rewrite Hb.
  - intros Hn Hf Hb. apply Hbranch; [done |].
    unfold bind, ReadBranch, call, lookup_or_not_found. by rewrite Hf, Hb.
Qed.

Lemma partialCommit_empty branch s :
  ListWorkspace branch s = (Ok [], s) -> partialCommit branch s = (Ok tt, s).
Proof. intros Hl. unfold partialCommit, bind. by rewrite Hl. Qed.

Lemma length_eqb_0 {A} (l : list A) : l <> [] -> (length l =? 0)%nat = false.
Proof. by destruct l. Qed.

Lemma partialCommit_nonempty branch s l :
  ListWorkspace branch s = (Ok l, s) -> l <> [] ->
  partialCommit branch s =
    on_error (ReadBranch branch)
      (fun branchData =>
         root <- merkle_Update (Branch_WorkspaceRoot branchData) l ;;
         ClearWorkspace branch ;;;
         WriteBranch branch
           (mkBranch branch (Branch_Commit branchData)
              (Branch_CommitRoot branchData) root))
      (fun err => if is_ErrNotFound err then ret tt else fail err) s.
Proof.
  intros Hl Hne. unfold partialCommit.
  unfold bind at 1. by rewrite Hl, (length_eqb_0 l Hne).
Qed.

(** With entries in the workspace and a branch record, a partial commit
    is [Update], [ClearWorkspace], [WriteBranch]. *)
Lemma partialCommit_folds branch s l br :
  ListWorkspace branch s = (Ok l, s) -> l <> [] ->
  ReadBranch branch s = (Ok br, s) ->
  partialCommit branch s =
    (root <- merkle_Update (Branch_WorkspaceRoot br) l ;;
     ClearWorkspace branch ;;;
     WriteBranch branch
       (mkBranch branch (Branch_Commit br) (Branch_CommitRoot br) root)) s.
Proof.
  intros Hl Hne Hb. rewrite (partialCommit_nonempty _ _ _ Hl Hne).
  unfold on_error. by rewrite Hb.
Qed.

Lemma partialCommit_folds_Ok branch s l br s' :
  ListWorkspace branch s = (Ok l, s) -> l <> [] ->
  ReadBranch branch s = (Ok br, s) ->
  partialCommit branch s = (Ok tt, s') ->
  exists root s1,
    merkle_Update (Branch_WorkspaceRoot br) l s = (Ok root, s1)
    /\ s' = folded branch br root s1.
Proof.
  intros Hl Hne Hb. rewrite (partialCommit_folds _ _ _ _ Hl Hne Hb).
  unfold bind. destruct (merkle_Update _ _ s) as [[root|e] s1]; [| done].
  unfold ClearWorkspace, WriteBranch, call, fail.
  destruct (fault (CClearWorkspace branch)); [done |].
  destruct (fault (CWriteBranch branch)); [done |].
  intros [= <-]. by exists root, s1.
Qed.

(** A partial commit that succeeds found the workspace empty, or found
    entries without a branch record, or folded the workspace. *)
Lemma partialCommit_Ok branch s s' :
  partialCommit branch s = (Ok tt, s') ->
  (ListWorkspace branch s = (Ok [], s) /\ s' = s)
  \/ (exists l e, ListWorkspace branch s = (Ok l, s) /\ l <> []
                /\ ReadBranch branch s = (Fail e, s) /\ s' = s)
  \/ exists l br root s1,
       ListWorkspace branch s = (Ok l, s) /\ l <> []
       /\ ReadBranch branch s = (Ok br, s)
       /\ merkle_Update (Branch_WorkspaceRoot br) l s = (Ok root, s1)
       /\ s' = folded branch br root s1.
Proof.
  intros Hp.
  pose proof (ListWorkspace_state branch s) as Hls.
  destruct (ListWorkspace branch s) as [[l|e] s0] eqn:Hl; simpl in Hls; subst s0.
  2:{ unfold partialCommit, bind in Hp. by rewrite Hl in Hp. }
  destruct l as [| we l].
  { rewrite partialCommit_empty in Hp by done. left. split; congruence. }
  pose proof (ReadBranch_state branch s) as Hbs.
  destruct (ReadBranch branch s) as [[br|e] s0] eqn:Hb; simpl in Hbs; subst s0.
  - right. right. destruct (partialCommit_folds_Ok _ _ _ _ _ Hl ltac:(done) Hb Hp)
      as (root & s1 & Hu & ->).
    by exists (we :: l), br, root, s1.
  - right. left. rewrite (partialCommit_nonempty _ _ _ Hl ltac:(done)) in Hp.
    unfold on_error in Hp. rewrite Hb in Hp.
    destruct (is_ErrNotFound e); [| done].
    unfold ret in Hp. exists (we :: l), e. repeat split; congruence.
Qed.

Lemma partialCommit_again branch s s' :
  partialCommit branch s = (Ok tt, s') -> partialCommit branch s' = (Ok tt, s').
Proof.
  intros Hp. destruct (partialCommit_Ok _ _ _ Hp)
    as [[_ ->] | [(l & e & _ & _ & _ & ->)
                 | (l & br & root & s1 & Hl & _ & _ & _ & ->)]]; [done | done |].
  apply partialCommit_empty, ListWorkspace_nil.
  - by apply ListWorkspace_Ok in Hl as (? & _).
  - unfold folded. rewrite workspace_of_set_branches. apply workspace_of_cleared.
Qed.

(** C6: a partial commit run twice in a row is a partial commit run once;
    on an empty workspace it succeeds and leaves the store as it is; and a
    run that folds entries is [Update], [ClearWorkspace] and a
    [WriteBranch] of the record with the same commit and commit root and
    the new tree root as workspace root. *)
Theorem partialCommit_idempotent (branch : string) (s : Store) :
  (partialCommit branch ;;; partialCommit branch) s = partialCommit branch s
  /\ (ListWorkspace branch s = (Ok [], s) ->
      partialCommit branch s = (Ok tt, s))
  /\ (forall l br, ListWorkspace branch s = (Ok l, s) -> l <> [] ->
      ReadBranch branch s = (Ok br, s) ->
      partialCommit branch s =
        (root <- merkle_Update (Branch_WorkspaceRoot br) l ;;
         ClearWorkspace branch ;;;
         WriteBranch branch
           (mkBranch branch (Branch_Commit br) (Branch_CommitRoot br) root)) s
      /\ forall s', partialCommit branch s = (Ok tt, s') ->
          exists root s1,
            merkle_Update (Branch_WorkspaceRoot br) l s = (Ok root, s1)
            /\ s' = folded branch br root s1
            /\ st_branches s' !! branch =
                 Some (mkBranch branch (Branch_Commit br) (Branch_CommitRoot br) root)
            /\ workspace_of branch s' = ∅).
Proof.
  split; [| split].
  - unfold bind at 1.
    destruct (partialCommit branch s) as [[[]|e] s'] eqn:Hp; [| done].
    by apply (partialCommit_again _ s).
  - apply partialCommit_empty.
  - intros l br Hl Hne Hb. split; [by apply partialCommit_folds |].
    intros s' Hp.
    destruct (partialCommit_folds_Ok _ _ _ _ _ Hl Hne Hb Hp) as (root & s1 & Hu & ->).
    exists root, s1. repeat split; [done | |].
    + unfold folded. simpl. by rewrite lookup_insert_eq.
    + unfold folded. rewrite workspace_of_set_branches. apply workspace_of_cleared.
Qed.

(** C10: when the workspace of a branch name lists entries and the store
    has no branch record of that name, a partial commit returns without
    an error and leaves the store as it is: the workspace is not cleared
    and no branch or tree is written. *)
Theorem partialCommit_missing_branch (branch : string) (s : Store)
    (l : list WorkspaceEntry) (e : error) :
  ListWorkspace branch s = (Ok l, s) -> l <> [] ->
  ReadBranch branch s = (Fail e, s) -> is_ErrNotFound e = true ->
  partialCommit branch s = (Ok tt, s)
  /\ ListWorkspace branch (snd (partialCommit branch s)) = (Ok l, s).
Proof.
  intros Hl Hne Hb He.
  assert (partialCommit branch s = (Ok tt, s)) as Hp.
  { rewrite (partialCommit_nonempty _ _ _ Hl Hne). unfold on_error.
    by rewrite Hb, He. }
  by rewrite Hp.
Qed.

Lemma ReadObject_tx_state ref path s : snd (ReadObject_tx ref path s) = s.
Proof.
  unfold ReadObject_tx, bind, on_error, fail, readonly.
  pose proof (ReadRepo_state s) as Hrepo. run_read Hrepo; [| done].
  pose proof (resolveRef_state ref s) as Href. run_read Href; [| done].
  destruct (reference_isBranch a0); [| done].
  pose proof (ReadFromWorkspace_state (Branch_GetName (reference_branch a0)) path s)
    as Hws.
  run_read Hws.
  - destruct (WorkspaceEntry_Tombstone a1); [done | apply tx_ReadObject_state].
  - by destruct (is_ErrNotFound e).
Qed.

(** C5: [ReadObject] on valid arguments in an existing repository.  A ref
    that resolves to a branch reads the object at the address of the
    workspace entry of the path when that entry is not a tombstone, fails
    with not-found when it is one, and reads through the tree of the
    branch's workspace root when the workspace has no entry; a ref that
    resolves to a commit reads through the commit's tree.  [ReadObject]
    leaves the store as it is, whatever its arguments. *)
Theorem ReadObject_spec (repoId ref path : string) (s : Store) :
  snd (ReadObject repoId ref path s) = s
  /\ (ValidateAll [ValidateRepoId repoId; ValidateRef ref; ValidatePath path] = None ->
      forall repo r, ReadRepo s = (Ok repo, s) -> resolveRef ref s = (Ok r, s) ->
      let branch := Branch_GetName (reference_branch r) in
      (forall we, reference_isBranch r = true ->
         ReadFromWorkspace branch path s = (Ok we, s) ->
         WorkspaceEntry_Tombstone we = false ->
         ReadObject repoId ref path s =
           tx_ReadObject (Entry_GetAddress (WorkspaceEntry_Entry we)) s)
      /\ (forall we, reference_isBranch r = true ->
         ReadFromWorkspace branch path s = (Ok we, s) ->
         WorkspaceEntry_Tombstone we = true ->
         ReadObject repoId ref path s = (Fail ErrNotFound, s))
      /\ (forall e, reference_isBranch r = true ->
         ReadFromWorkspace branch path s = (Fail e, s) ->
         is_ErrNotFound e = true ->
         ReadObject repoId ref path s =
           (merkle_GetObject (Branch_GetWorkspaceRoot (reference_branch r)) path s, s))
      /\ (reference_isBranch r = false ->
         ReadObject repoId ref path s =
           (merkle_GetObject (Commit_Tree (reference_commit r)) path s, s))).
Proof.
  split.
  { unfold ReadObject, validated, RepoReadTransact.
    destruct (ValidateAll _); [done | apply ReadObject_tx_state]. }
  intros Hv repo r Hrepo Hr branch.
  assert (Hrun : ReadObject repoId ref path s =
    (if reference_isBranch r then
       on_error (ReadFromWorkspace branch path)
         (fun we =>
            if WorkspaceEntry_Tombstone we then fail ErrNotFound
            else tx_ReadObject (Entry_GetAddress (WorkspaceEntry_Entry we)))
         (fun err =>
            if is_ErrNotFound err then
              readonly (merkle_GetObject
                          (Branch_GetWorkspaceRoot (reference_branch r)) path)
            else fail err)
     else readonly (merkle_GetObject (Commit_Tree (reference_commit r)) path)) s).
  { unfold ReadObject, validated, RepoReadTransact. rewrite Hv.
    unfold ReadObject_tx. unfold bind at 1. rewrite Hrepo.
    unfold bind at 1. by rewrite Hr. }
  rewrite Hrun. repeat split.
  - intros we -> Hw Ht. unfold on_error. by rewrite Hw, Ht.
  - intros we -> Hw Ht. unfold on_error. by rewrite Hw, Ht.
  - intros e -> Hw He. unfold on_error. by rewrite Hw, He.
  - by intros ->.
Qed.

(** C4: [DeleteObject] on valid arguments, for a branch whose record the
    store has.  With the workspace entry of the path and the object entry
    of the path in the tree of the workspace root each present or not
    found: neither present fails with not-found and changes nothing; only
    the workspace entry present deletes it and stages nothing; only the
    tree entry present stages a tombstone; both present deletes the
    workspace entry and stages a tombstone; a workspace entry that is a
    tombstone fails with not-found and changes nothing. *)
Theorem DeleteObject_spec (chosen : Q) (ts : Z) (repoId branch path : string)
    (s : Store) (repo : Repo) (br : Branch) :
  ValidateAll [ValidateRepoId repoId; ValidateRef branch; ValidatePath path] = None ->
  ReadRepo s = (Ok repo, s) ->
  ReadBranch branch s = (Ok br, s) ->
  let inTree := merkle_GetEntry (Branch_WorkspaceRoot br) path Entry_OBJECT s in
  let absent {A} (r : result A) :=
    exists e, r = Fail e /\ is_ErrNotFound e = true in
  let present {A} (r : result A) := exists a, r = Ok a in
  (forall e, ReadFromWorkspace branch path s = (Fail e, s) ->
     is_ErrNotFound e = true -> absent inTree ->
     DeleteObject chosen ts repoId branch path s = (Fail ErrNotFound, s))
  /\ (forall we, ReadFromWorkspace branch path s = (Ok we, s) ->
     WorkspaceEntry_Tombstone we = false -> absent inTree ->
     DeleteObject chosen ts repoId branch path s =
       RepoTransact repoId (DeleteWorkspacePath branch path) s)
  /\ (forall e, ReadFromWorkspace branch path s = (Fail e, s) ->
     is_ErrNotFound e = true -> present inTree ->
     DeleteObject chosen ts repoId branch path s =
       RepoTransact repoId
         (writeEntryToWorkspace chosen repo branch path (tombstone path ts)) s)
  /\ (forall we, ReadFromWorkspace branch path s = (Ok we, s) ->
     WorkspaceEntry_Tombstone we = false -> present inTree ->
     DeleteObject chosen ts repoId branch path s =
       RepoTransact repoId
         (DeleteWorkspacePath branch path ;;;
          writeEntryToWorkspace chosen repo branch path (tombstone path ts)) s)
  /\ (forall we, ReadFromWorkspace branch path s = (Ok we, s) ->
     WorkspaceEntry_Tombstone we = true -> present inTree \/ absent inTree ->
     DeleteObject chosen ts repoId branch path s = (Fail ErrNotFound, s)).
Proof.
  intros Hv Hrepo Hb inTree absent present.
  assert (Hrun : forall w wsEntry n,
    ReadFromWorkspace branch path s = (w, s) ->
    match w with
    | Ok we => wsEntry = Some we /\ n = 0%nat
    | Fail e => is_ErrNotFound e = true /\ wsEntry = None /\ n = 1%nat
    end ->
    DeleteObject chosen ts repoId branch path s =
      RepoTransact repoId
        (mk <- on_error (readonly (merkle_GetEntry (Branch_WorkspaceRoot br) path
                                Entry_OBJECT))
                 (fun e => ret (Some e, n))
                 (fun err => if is_ErrNotFound err then ret (None, (n + 1)%nat)
                             else fail err) ;;
         if (snd mk =? 2)%nat then fail ErrNotFound else
         match wsEntry with
         | Some we =>
             if WorkspaceEntry_Tombstone we then fail ErrNotFound
             else DeleteWorkspacePath branch path
         | None => ret tt
         end ;;;
         match fst mk with
         | Some _ =>
             writeEntryToWorkspace chosen repo branch path (tombstone path ts)
         | None => ret tt
         end) s).
  { intros w wsEntry n Hw Hcase.
    unfold DeleteObject, validated. rewrite Hv. unfold RepoTransact.
    unfold DeleteObject_tx. unfold bind at 1. rewrite Hrepo.
    unfold bind at 1, on_error at 1. rewrite Hw.
    destruct w as [we|e].
    - destruct Hcase as [-> ->]. unfold ret at 1.
      unfold bind at 1. rewrite Hb. done.
    - destruct Hcase as (-> & -> & ->). unfold ret at 1.
      unfold bind at 1. rewrite Hb. done. }
  unfold absent, present, inTree in *. clear absent present inTree.
  repeat split.
  - intros e Hw He (e' & Ht & He').
    rewrite (Hrun _ None 1%nat Hw) by done.
    unfold RepoTransact, bind, on_error, readonly. by rewrite Ht, He'.
  - intros we Hw Htomb (e' & Ht & He').
    rewrite (Hrun _ (Some we) 0%nat Hw) by done.
    unfold RepoTransact, bind at 1, on_error, readonly. rewrite Ht, He'. simpl.
    rewrite Htomb. unfold bind, ret.
    by destruct (DeleteWorkspacePath branch path s) as [[[]|?] ?].
  - intros e Hw He (me & Ht).
    rewrite (Hrun _ None 1%nat Hw) by done.
    unfold RepoTransact, bind at 1, on_error, readonly. rewrite Ht. simpl.
    unfold bind at 1, ret at 1. done.
  - intros we Hw Htomb (me & Ht).
    rewrite (Hrun _ (Some we) 0%nat Hw) by done.
    unfold RepoTransact, bind at 1, on_error, readonly. rewrite Ht. simpl.
    by rewrite Htomb.
  - intros we Hw Htomb Ht.
    rewrite (Hrun _ (Some we) 0%nat Hw) by done.
    unfold RepoTransact, bind at 1, on_error, readonly.
    destruct Ht as [(me & ->) | (e' & -> & ->)]; simpl; rewrite Htomb; done.
Qed.

Lemma ReadBranch_folded branch br0 root s1 br s2 :
  ReadBranch branch (folded branch br0 root s1) = (Ok br, s2) ->
  br = mkBranch branch (Branch_Commit br0) (Branch_CommitRoot br0) root.
Proof.
  intros Hb. apply ReadBranch_Ok in Hb as (_ & Hb & _).
  unfold folded in Hb. simpl in Hb. rewrite lookup_insert_eq in Hb. congruence.
Qed.


(** *** Merge *)

Lemma Merge_scan df : forall isConflict mergeOperations,
  fold_left Merge_scan_step df (isConflict, mergeOperations) =
    (isConflict || existsb is_conflict df,
     (mergeOperations ++ merge_operations_of df)%list).
Proof.
  induction df as [| d df IH]; intros c ops; cbn [fold_left existsb].
  - change (merge_operations_of []) with (@nil Difference).
    by rewrite orb_false_r, app_nil_r.
  - unfold Merge_scan_step at 2. rewrite IH. unfold merge_operations_of, is_conflict.
    rewrite filter_cons. f_equal.
    + destruct (decide (Difference_Direction d = DifferenceDirectionConflict)).
      * rewrite bool_decide_eq_true_2 by done. by destruct c.
      * rewrite bool_decide_eq_false_2 by done. by destruct c.
    + case_decide; [by rewrite <- app_assoc | done].
Qed.

Lemma inTx_run {V A} (m : Tx Store A) s (v : V) r s' :
  m s = (r, s') -> inTx m (mkEnv s v) = (r, mkEnv s' v).
Proof. intros Hm. unfold inTx. simpl. by rewrite Hm. Qed.

Lemma doDiff_state repoId leftRef rightRef isMerge s :
  snd (doDiff repoId leftRef rightRef isMerge s) = s.
Proof.
  unfold doDiff, bind, on_error, ret, fail, readonly.
  pose proof (resolveRef_state leftRef s) as Hl. run_read Hl; [| done].
  pose proof (resolveRef_state rightRef s) as Hr. run_read Hr; [| done].
  by destruct (dag_FindLowestCommonAncestor _ _ s) as [[c|]|e'].
Qed.

Lemma uncommitted_check (b : Branch) (l : list WorkspaceEntry) :
  negb (String.eqb (Branch_CommitRoot b) (Branch_WorkspaceRoot b))
  || (0 <? length l)%nat = false
  <-> Branch_CommitRoot b = Branch_WorkspaceRoot b /\ l = [].
Proof.
  rewrite orb_false_iff, negb_false_iff, String.eqb_eq.
  destruct l; simpl; split; intros [? ?]; done.
Qed.

(** How [Merge] runs up to the check of the destination. *)
Lemma Merge_tx_checked ts repoId source destination userId s ops b l :
  ReadBranch destination s = (Ok b, s) ->
  ListWorkspace destination s = (Ok l, s) ->
  Merge_tx ts repoId source destination userId (mkEnv s ops) =
    if negb (String.eqb (Branch_CommitRoot b) (Branch_WorkspaceRoot b))
       || (0 <? length l)%nat
    then (Fail ErrDestinationNotCommitted, mkEnv s ops)
    else Merge_apply ts repoId source destination userId b (mkEnv s ops).
Proof.
  intros Hb Hl. unfold Merge_tx.
  unfold bind at 1, on_error at 1. rewrite (inTx_run _ _ _ _ _ Hb). unfold ret at 1.
  unfold bind at 1. rewrite (inTx_run _ _ _ _ _ Hl).
  by destruct (_ || _).
Qed.

(** C1: [Merge] on valid arguments, for a destination whose branch record
    and workspace the store reads.  When the commit root and the
    workspace root of the destination differ, or its workspace lists an
    entry, [Merge] fails with [ErrDestinationNotCommitted] and leaves the
    store as it was: no commit is written and the destination is not
    advanced.  When the roots are equal and the workspace lists nothing,
    the function [Merge] runs goes on with the rest of the merge. *)
Theorem Merge_destination_check (ts : Z) (repoId source destination userId : string)
    (s : Store) (destinationBranch : Branch) (l : list WorkspaceEntry) :
  ValidateAll [ValidateRepoId repoId; ValidateRef source; ValidateRef destination]
    = None ->
  ReadBranch destination s = (Ok destinationBranch, s) ->
  ListWorkspace destination s = (Ok l, s) ->
  (Branch_CommitRoot destinationBranch <> Branch_WorkspaceRoot destinationBranch
   \/ l <> [] ->
   Merge ts repoId source destination userId s =
     (([], Some ErrDestinationNotCommitted), s))
  /\ (Branch_CommitRoot destinationBranch = Branch_WorkspaceRoot destinationBranch ->
      l = [] ->
      forall ops,
        Merge_tx ts repoId source destination userId (mkEnv s ops) =
          Merge_apply ts repoId source destination userId destinationBranch
            (mkEnv s ops)).
Proof.
  intros Hv Hb Hl. split.
  - intros Hdirty. unfold Merge. rewrite Hv. unfold RepoTransact_capturing.
    rewrite (Merge_tx_checked _ _ _ _ _ _ _ _ _ Hb Hl).
    destruct (_ || _) eqn:Hc; [done |].
    apply uncommitted_check in Hc as [Hroots ->]. by destruct Hdirty.
  - intros Hroots -> ops. rewrite (Merge_tx_checked _ _ _ _ _ _ _ _ _ Hb Hl).
    by rewrite (proj2 (uncommitted_check destinationBranch [])).
Qed.

(** C2: [Merge] on valid arguments and a destination without uncommitted
    work.  When the differences [doDiff] computes hold one whose
    direction is [conflict], [Merge] returns [ErrMergeConflict] and, with
    it, the differences whose direction is not [right]; the store is left
    as it was. *)
Theorem Merge_conflict (ts : Z) (repoId source destination userId : string)
    (s : Store) (destinationBranch : Branch) (df : Differences) :
  ValidateAll [ValidateRepoId repoId; ValidateRef source; ValidateRef destination]
    = None ->
  ReadBranch destination s = (Ok destinationBranch, s) ->
  ListWorkspace destination s = (Ok [], s) ->
  Branch_CommitRoot destinationBranch = Branch_WorkspaceRoot destinationBranch ->
  doDiff repoId source destination true s = (Ok df, s) ->
  (exists d, d ∈ df /\ Difference_Direction d = DifferenceDirectionConflict) ->
  Merge ts repoId source destination userId s =
    ((merge_operations_of df, Some ErrMergeConflict), s).
Proof.
  intros Hv Hb Hl Hroots Hdf (d & Hd & Hdir).
  unfold Merge. rewrite Hv. unfold RepoTransact_capturing.
  rewrite (Merge_tx_checked _ _ _ _ _ _ _ _ _ Hb Hl).
  rewrite (proj2 (uncommitted_check destinationBranch [])) by done.
  unfold Merge_apply, Merge_prepare.
  unfold bind at 1. unfold bind at 1. rewrite (inTx_run _ _ _ _ _ Hdf).
  unfold bind at 1, getVar at 1. cbn [env_var].
  rewrite Merge_scan. cbn [fst snd orb app].
  unfold bind at 1, setVar at 1. cbn [env_tx].
  replace (existsb is_conflict df) with true; [done |].
  symmetry. apply existsb_exists. exists d. split.
  - by apply list_elem_of_In.
  - unfold is_conflict. by apply bool_decide_eq_true.
Qed.

Lemma inTx_var {V A} (m : Tx Store A) (env : Env V) :
  env_var (snd (inTx m env)) = env_var env.
Proof. unfold inTx. by destruct (m (env_tx env)). Qed.

(** A [Merge_prepare] that succeeds computed differences without a
    conflict and left the merge operations in the variable. *)
Lemma Merge_prepare_Ok repoId source destination b s ops p env1 :
  Merge_prepare repoId source destination b (mkEnv s ops) = (Ok p, env1) ->
  exists df,
    doDiff repoId source destination true s = (Ok df, s)
    /\ existsb is_conflict df = false
    /\ env_var env1 = (ops ++ merge_operations_of df)%list.
Proof.
  unfold Merge_prepare. unfold bind at 1. unfold inTx at 1. cbn [env_tx env_var].
  pose proof (doDiff_state repoId source destination true s) as Hds.
  destruct (doDiff repoId source destination true s) as [[df|e] s0];
    simpl in Hds; subst s0; [| done].
  unfold bind at 1, getVar at 1. cbn [env_var].
  rewrite Merge_scan. cbn [fst snd orb].
  unfold bind at 1, setVar at 1. cbn [env_tx].
  destruct (existsb is_conflict df) eqn:Hconf; [done |].
  intros Hrun. exists df. split; [done |]. split; [done |].
  revert Hrun. unfold bind at 1.
  set (env0 := mkEnv s (ops ++ merge_operations_of df)%list).
  pose proof (inTx_var (ReadBranch source) env0) as Hv1.
  destruct (inTx (ReadBranch source) env0) as [[src|e] env2]; [| done].
  unfold bind at 1, getVar at 1.
  unfold bind at 1.
  pose proof (inTx_var (Merge_entries (Branch_WorkspaceRoot src) (env_var env2)) env2)
    as Hv2.
  destruct (inTx (Merge_entries _ _) env2) as [[ws|e] env3]; [| done].
  unfold bind at 1, on_error at 1.
  pose proof (inTx_var (merkle_Update (Branch_CommitRoot b) ws) env3) as Hv3.
  destruct (inTx (merkle_Update _ _) env3) as [[root|e] env4]; [| done].
  unfold ret. intros [= _ <-]. simpl in *. congruence.
Qed.

(** A commit update that fails leaves every branch record as it was. *)
Lemma doCommitUpdates_Fail branchData committer message parents metadata ts s e :
  fst (doCommitUpdates branchData committer message parents metadata ts s) = Fail e ->
  st_branches (snd (doCommitUpdates branchData committer message parents metadata
                      ts s)) = st_branches s.
Proof.
  unfold doCommitUpdates, bind, WriteCommit, WriteBranch, call, fail, ret.
  destruct (fault (CWriteCommit _)); [done |].
  destruct (fault (CWriteBranch _)); done.
Qed.

(** C8: [Merge] on valid arguments and a destination without uncommitted
    work, when the merge got as far as the new root of the destination
    (so the differences hold no conflict).  If writing the merge commit
    or the destination's branch record then fails, [Merge] still returns
    the merge operations and no error; the branch records are as they
    were before the failed write. *)
Theorem Merge_discards_commit_error (ts : Z)
    (repoId source destination userId : string) (s : Store)
    (destinationBranch dst src : Branch) (env1 : Env Differences) (e : error) :
  ValidateAll [ValidateRepoId repoId; ValidateRef source; ValidateRef destination]
    = None ->
  ReadBranch destination s = (Ok destinationBranch, s) ->
  ListWorkspace destination s = (Ok [], s) ->
  Branch_CommitRoot destinationBranch = Branch_WorkspaceRoot destinationBranch ->
  Merge_prepare repoId source destination destinationBranch (mkEnv s [])
    = (Ok (dst, src), env1) ->
  let commitUpdates :=
    doCommitUpdates dst userId ("Merge branch " ++ source ++ " into " ++ destination)
      [Branch_Commit dst; Branch_Commit src] ∅ ts (env_tx env1) in
  fst commitUpdates = Fail e ->
  exists df,
    doDiff repoId source destination true s = (Ok df, s)
    /\ Merge ts repoId source destination userId s =
         ((merge_operations_of df, None), snd commitUpdates)
    /\ st_branches (snd commitUpdates) = st_branches (env_tx env1).
Proof.
  intros Hv Hb Hl Hroots Hprep commitUpdates Hfail.
  destruct (Merge_prepare_Ok _ _ _ _ _ _ _ _ Hprep) as (df & Hdf & _ & Hops).
  exists df. split; [done |]. split.
  - unfold Merge. rewrite Hv. unfold RepoTransact_capturing.
    rewrite (Merge_tx_checked _ _ _ _ _ _ _ _ _ Hb Hl).
    rewrite (proj2 (uncommitted_check destinationBranch [])) by done.
    unfold Merge_apply. unfold bind at 1. rewrite Hprep. cbn [fst snd].
    unfold bind, discard, getVar, inTx. fold commitUpdates.
    destruct commitUpdates as [r s']. cbn [fst snd env_var env_tx].
    by rewrite Hops.
  - by apply (doCommitUpdates_Fail _ _ _ _ _ _ _ e).
Qed.

(** *** The partial-commit ratio *)


Lemma ReadBranch_intro name s b :
  fault (CReadBranch name) = None -> st_branches s !! name = Some b ->
  ReadBranch name s = (Ok b, s).
Proof.
  intros Hf Hb. unfold ReadBranch, call, lookup_or_not_found. by rewrite Hf, Hb.
Qed.

(** Reading a branch only looks at the branch records. *)
Lemma ReadBranch_transport name s s' b :
  st_branches s' = st_branches s ->
  ReadBranch name s = (Ok b, s) -> ReadBranch name s' = (Ok b, s').
Proof.
  intros Heq Hb. apply ReadBranch_Ok in Hb as (Hf & Hb & _).
  apply ReadBranch_intro; [done | by rewrite Heq].
Qed.


Lemma ReadRepo_Ok s repo s' :
  ReadRepo s = (Ok repo, s') -> st_repo s = Some repo /\ s' = s.
Proof.
  unfold ReadRepo, call, lookup_or_not_found, fail.
  destruct (fault CReadRepo); [done |]. destruct (st_repo s); [| done].
  by intros [= -> ->].
Qed.

Lemma RepoTransact_Ok {A} repoId (fn : Tx Store A) s a s' :
  RepoTransact repoId fn s = (Ok a, s') -> fn s = (Ok a, s').
Proof. unfold RepoTransact. by destruct (fn s) as [[?|?] ?]. Qed.

Lemma validated_Ok {A} checks (m : Tx Store A) s a s' :
  validated checks m s = (Ok a, s') -> m s = (Ok a, s').
Proof. unfold validated. by destruct (ValidateAll checks). Qed.


End Properties.

(** ** The properties on the sample repositories *)

Section OnSamples.
#[local] Existing Instances no_faults toy_Ident toy_Path toy_Merkle accept_all.
Import Sample.

(** The end-to-end scenarios of the specification. *)

Example last_segment_examples :
  last_segment "a/b/c.txt" = "c.txt" /\ last_segment "c.txt" = "c.txt"
  /\ last_segment "a/" = "".
Proof. repeat split. Qed.

Example scenario_create_write_commit_read :
  fst (ReadObject "r" "main" "a/b.txt" committed) = Ok obj1
  /\ fst (ReadObject "r" "#c.m1@#t.a/b.txt=#o.x" "a/b.txt" committed) = Ok obj1.
Proof. split; vm_compute; reflexivity. Qed.

Example scenario_tombstone :
  let deleted := snd (DeleteObject (1#2) 114 "r" "main" "a/b.txt" committed) in
  fst (ReadObject "r" "main" "a/b.txt" deleted) = Fail ErrNotFound
  /\ fst (ReadObject "r" "#c.m1@#t.a/b.txt=#o.x" "a/b.txt" deleted) = Ok obj1
  /\ fst (ReadObject "r" "main" "a/b.txt"
            (snd (KVIndex_Commit 115 "r" "main" "m5" "u" ∅ deleted)))
     = Fail ErrNotFound.
Proof. repeat split; vm_compute; reflexivity. Qed.

Example scenario_branch_and_diverge :
  fst (doDiff "r" "main" "dev" false diverged)
  = Ok [mkDifference DifferenceTypeChanged DifferenceDirectionRight "a/b.txt"
          Entry_OBJECT].
Proof. vm_compute. reflexivity. Qed.

Example scenario_fast_merge :
  let merged := Merge 108 "r" "dev" "main" "u" diverged in
  fst merged = ([change_ab], None)
  /\ Branch_Commit <$> st_branches (snd merged) !! "main"
     = Some "#c.Merge branch dev into main@#t.a/b.txt=#o.y"
  /\ Commit_Parents
       <$> st_commits (snd merged) !! "#c.Merge branch dev into main@#t.a/b.txt=#o.y"
     = Some ["#c.m1@#t.a/b.txt=#o.x"; "#c.m2@#t.a/b.txt=#o.y"].
Proof. repeat split; vm_compute; reflexivity. Qed.

Example scenario_conflict :
  fst (Merge 108 "r" "dev" "main" "u" conflicting)
  = ([conflict_ab], Some ErrMergeConflict).
Proof. vm_compute. reflexivity. Qed.

Example scenario_uncommitted_destination :
  fst (Merge 108 "r" "dev" "main" "u" staged)
  = ([], Some ErrDestinationNotCommitted).
Proof. vm_compute. reflexivity. Qed.

Lemma partialCommit_missing_branch_witness :
  partialCommit "ghost" orphaned = (Ok tt, orphaned)
  /\ ListWorkspace "ghost" (snd (partialCommit "ghost" orphaned))
     = (Ok [entry_ghost], orphaned).
Proof.
  apply (partialCommit_missing_branch "ghost" orphaned [entry_ghost] ErrNotFound).
  - vm_compute. reflexivity.
  - discriminate.
  - vm_compute. reflexivity.
  - reflexivity.
Defined.

Lemma resolveRef_spec_witness :
  resolveRef "#c.m1@#t.a/b.txt=#o.x" committed
    = (Ok (mkreference commit1 None false), committed)
  /\ resolveRef "main" committed = (Ok (mkreference commit1 (Some main1) true), committed)
  /\ resolveRef "#feature" hash_named
     = (Ok (mkreference commit1 (Some feature) true), hash_named)
  /\ resolveRef "nope" committed = (Fail ErrNotFound, committed).
Proof.
  split; [| split; [| split]].
  - apply (resolveRef_spec "#c.m1@#t.a/b.txt=#o.x" committed).
    + reflexivity.
    + vm_compute. reflexivity.
  - apply (resolveRef_spec "main" committed).
    + left. reflexivity.
    + vm_compute. reflexivity.
    + vm_compute. reflexivity.
  - apply (resolveRef_spec "#feature" hash_named).
    + right. exists ErrNotFound. split; [vm_compute; reflexivity | reflexivity].
    + vm_compute. reflexivity.
    + vm_compute. reflexivity.
  - apply (resolveRef_spec "nope" committed).
    + left. reflexivity.
    + vm_compute. reflexivity.
    + reflexivity.
Defined.

Lemma partialCommit_idempotent_witness :
  partialCommit "main" committed = (Ok tt, committed)
  /\ (partialCommit "main" staged =
       (root <- merkle_Update "#t.a/b.txt=#o.x" [entry_c] ;;
        ClearWorkspace "main" ;;;
        WriteBranch "main"
          (mkBranch "main" "#c.m1@#t.a/b.txt=#o.x" "#t.a/b.txt=#o.x" root)) staged
     /\ forall s', partialCommit "main" staged = (Ok tt, s') ->
         exists root s1,
           merkle_Update "#t.a/b.txt=#o.x" [entry_c] staged = (Ok root, s1)
           /\ s' = folded "main" main1 root s1
           /\ st_branches s' !! "main" =
                Some (mkBranch "main" "#c.m1@#t.a/b.txt=#o.x" "#t.a/b.txt=#o.x" root)
           /\ workspace_of "main" s' = ∅).
Proof.
  split.
  - apply (partialCommit_idempotent "main" committed). vm_compute. reflexivity.
  - apply (proj2 (proj2 (partialCommit_idempotent "main" staged)) [entry_c] main1).
    + vm_compute. reflexivity.
    + discriminate.
    + vm_compute. reflexivity.
Defined.

Lemma ReadObject_spec_witness :
  ReadObject "r" "main" "c.txt" staged = tx_ReadObject "#o.z" staged
  /\ ReadObject "r" "main" "a/b.txt" tombstoned = (Fail ErrNotFound, tombstoned)
  /\ ReadObject "r" "main" "a/b.txt" staged
     = (merkle_GetObject "#t.a/b.txt=#o.x" "a/b.txt" staged, staged)
  /\ ReadObject "r" "#c.m1@#t.a/b.txt=#o.x" "a/b.txt" tombstoned
     = (merkle_GetObject "#t.a/b.txt=#o.x" "a/b.txt" tombstoned, tombstoned).
Proof.
  split; [| split; [| split]].
  - destruct (ReadObject_spec "r" "main" "c.txt" staged) as [_ H].
    destruct (H ltac:(reflexivity) repo0 (mkreference commit1 (Some main1) true)
                ltac:(vm_compute; reflexivity) ltac:(vm_compute; reflexivity))
      as (Hentry & _).
    apply (Hentry entry_c).
    + reflexivity.
    + vm_compute. reflexivity.
    + reflexivity.
  - destruct (ReadObject_spec "r" "main" "a/b.txt" tombstoned) as [_ H].
    destruct (H ltac:(reflexivity) repo0 (mkreference commit1 (Some main1) true)
                ltac:(vm_compute; reflexivity) ltac:(vm_compute; reflexivity))
      as (_ & Htomb & _).
    apply (Htomb (tombstone "a/b.txt" 113)).
    + reflexivity.
    + vm_compute. reflexivity.
    + reflexivity.
  - destruct (ReadObject_spec "r" "main" "a/b.txt" staged) as [_ H].
    destruct (H ltac:(reflexivity) repo0 (mkreference commit1 (Some main1) true)
                ltac:(vm_compute; reflexivity) ltac:(vm_compute; reflexivity))
      as (_ & _ & Htree & _).
    apply (Htree ErrNotFound).
    + reflexivity.
    + vm_compute. reflexivity.
    + reflexivity.
  - destruct (ReadObject_spec "r" "#c.m1@#t.a/b.txt=#o.x" "a/b.txt" tombstoned)
      as [_ H].
    destruct (H ltac:(reflexivity) repo0 (mkreference commit1 None false)
                ltac:(vm_compute; reflexivity) ltac:(vm_compute; reflexivity))
      as (_ & _ & _ & Hcommit).
    apply Hcommit. reflexivity.
Defined.

Lemma DeleteObject_spec_witness :
  DeleteObject (1#2) 114 "r" "main" "zzz" committed = (Fail ErrNotFound, committed)
  /\ DeleteObject (1#2) 114 "r" "main" "c.txt" staged
     = RepoTransact "r" (DeleteWorkspacePath "main" "c.txt") staged
  /\ DeleteObject (1#2) 114 "r" "main" "a/b.txt" committed
     = RepoTransact "r"
         (writeEntryToWorkspace (1#2) repo0 "main" "a/b.txt" (tombstone "a/b.txt" 114))
         committed
  /\ DeleteObject (1#2) 114 "r" "main" "a/b.txt" restaged
     = RepoTransact "r"
         (DeleteWorkspacePath "main" "a/b.txt" ;;;
          writeEntryToWorkspace (1#2) repo0 "main" "a/b.txt" (tombstone "a/b.txt" 114))
         restaged
  /\ DeleteObject (1#2) 114 "r" "main" "a/b.txt" tombstoned
     = (Fail ErrNotFound, tombstoned).
Proof.
  split; [| split; [| split; [| split]]].
  - pose proof (DeleteObject_spec (1#2) 114 "r" "main" "zzz" committed repo0 main1) as H.
    apply (H ltac:(reflexivity) ltac:(vm_compute; reflexivity)
             ltac:(vm_compute; reflexivity)) with (e := ErrNotFound).
    + vm_compute. reflexivity.
    + reflexivity.
    + exists ErrNotFound. split; [vm_compute; reflexivity | reflexivity].
  - pose proof (DeleteObject_spec (1#2) 114 "r" "main" "c.txt" staged repo0 main1) as H.
    apply (H ltac:(reflexivity) ltac:(vm_compute; reflexivity)
             ltac:(vm_compute; reflexivity)) with (we := entry_c).
    + vm_compute. reflexivity.
    + reflexivity.
    + exists ErrNotFound. split; [vm_compute; reflexivity | reflexivity].
  - pose proof (DeleteObject_spec (1#2) 114 "r" "main" "a/b.txt" committed repo0 main1)
      as H.
    apply (H ltac:(reflexivity) ltac:(vm_compute; reflexivity)
             ltac:(vm_compute; reflexivity)) with (e := ErrNotFound).
    + vm_compute. reflexivity.
    + reflexivity.
    + exists tree_ab. vm_compute. reflexivity.
  - pose proof (DeleteObject_spec (1#2) 114 "r" "main" "a/b.txt" restaged repo0 main1)
      as H.
    apply (H ltac:(reflexivity) ltac:(vm_compute; reflexivity)
             ltac:(vm_compute; reflexivity)) with (we := entry_ab).
    + vm_compute. reflexivity.
    + reflexivity.
    + exists tree_ab. vm_compute. reflexivity.
  - pose proof (DeleteObject_spec (1#2) 114 "r" "main" "a/b.txt" tombstoned repo0 main1)
      as H.
    apply (H ltac:(reflexivity) ltac:(vm_compute; reflexivity)
             ltac:(vm_compute; reflexivity)) with (we := tombstone "a/b.txt" 113).
    + vm_compute. reflexivity.
    + reflexivity.
    + left. exists tree_ab. vm_compute. reflexivity.
Defined.


Lemma Merge_destination_check_witness :
  Merge 108 "r" "dev" "main" "u" staged
    = (([], Some ErrDestinationNotCommitted), staged)
  /\ Merge 108 "r" "dev" "main" "u" main_dirty
     = (([], Some ErrDestinationNotCommitted), main_dirty)
  /\ Merge_tx 108 "r" "dev" "main" "u" (mkEnv diverged [])
     = Merge_apply 108 "r" "dev" "main" "u" main1 (mkEnv diverged []).
Proof.
  split; [| split].
  - pose proof (Merge_destination_check 108 "r" "dev" "main" "u" staged main1
                  [entry_c]) as H.
    apply (H ltac:(reflexivity) ltac:(vm_compute; reflexivity)
             ltac:(vm_compute; reflexivity)).
    right. discriminate.
  - pose proof (Merge_destination_check 108 "r" "dev" "main" "u" main_dirty
                  (mkBranch "main" "#c.m1@#t.a/b.txt=#o.x" "#t.a/b.txt=#o.x"
                     "#t.a/b.txt=#o.z") []) as H.
    apply (H ltac:(reflexivity) ltac:(vm_compute; reflexivity)
             ltac:(vm_compute; reflexivity)).
    left. discriminate.
  - pose proof (Merge_destination_check 108 "r" "dev" "main" "u" diverged main1 [])
      as H.
    apply (H ltac:(reflexivity) ltac:(vm_compute; reflexivity)
             ltac:(vm_compute; reflexivity)); reflexivity.
Defined.

Lemma Merge_conflict_witness :
  Merge 108 "r" "dev" "main" "u" conflicting
    = ((merge_operations_of [conflict_ab], Some ErrMergeConflict), conflicting).
Proof.
  apply (Merge_conflict 108 "r" "dev" "main" "u" conflicting main3 [conflict_ab]).
  - reflexivity.
  - vm_compute. reflexivity.
  - vm_compute. reflexivity.
  - reflexivity.
  - vm_compute. reflexivity.
  - exists conflict_ab. split; [left | reflexivity].
Defined.


End OnSamples.

Section OnFailingStore.
#[local] Existing Instances failing_commit_writes toy_Ident toy_Path toy_Merkle
  accept_all.
Import Sample.

Lemma Merge_discards_commit_error_witness :
  exists df,
    doDiff "r" "dev" "main" true diverged = (Ok df, diverged)
    /\ Merge 108 "r" "dev" "main" "u" diverged =
         ((merge_operations_of df, None),
          env_tx (snd (Merge_prepare "r" "dev" "main" main1 (mkEnv diverged []))))
    /\ st_branches
         (env_tx (snd (Merge_prepare "r" "dev" "main" main1 (mkEnv diverged []))))
       !! "main" = Some main1.
Proof.
  destruct (Merge_discards_commit_error 108 "r" "dev" "main" "u" diverged main1
              (mkBranch "main" "#c.m1@#t.a/b.txt=#o.x" "#t.a/b.txt=#o.y"
                 "#t.a/b.txt=#o.y")
              dev2
              (snd (Merge_prepare "r" "dev" "main" main1 (mkEnv diverged [])))
              (ErrStorage "disk full"))
    as (df & Hdf & Hmerge & Hbranches).
  - reflexivity.
  - vm_compute. reflexivity.
  - vm_compute. reflexivity.
  - reflexivity.
  - vm_compute. reflexivity.
  - vm_compute. reflexivity.
  - exists df. split; [exact Hdf |]. split.
    + rewrite Hmerge. vm_compute. reflexivity.
    + vm_compute. reflexivity.
Defined.
End OnFailingStore.

Section OnFailingBranchWrites.
#[local] Existing Instances failing_branch_writes toy_Ident toy_Path toy_Merkle
  accept_all.
Import Sample.

(** When only the write of the branch record fails, the merge commit is in
    the store, the destination still points at its old commit, and [Merge]
    reports no error. *)
Example merge_with_failing_branch_write :
  let merged := Merge 108 "r" "dev" "main" "u" diverged in
  fst merged = ([change_ab], None)
  /\ st_branches (snd merged) !! "main" = Some main1
  /\ Commit_Parents
       <$> st_commits (snd merged) !! "#c.Merge branch dev into main@#t.a/b.txt=#o.y"
     = Some ["#c.m1@#t.a/b.txt=#o.x"; "#c.m2@#t.a/b.txt=#o.y"].
Proof. repeat split; vm_compute; reflexivity. Qed.
End OnFailingBranchWrites.

(** ** Further properties of the index *)

Section RunningTransactions.
Context {St : Type}.

(** Running a sequence whose first call is known. *)
Lemma bind_Ok {A B} (m : Tx St A) (k : A -> Tx St B) s a s' :
  m s = (Ok a, s') -> bind m k s = k a s'.
Proof. intros Hm. unfold bind. by rewrite Hm. Qed.

Lemma bind_Fail {A B} (m : Tx St A) (k : A -> Tx St B) s e s' :
  m s = (Fail e, s') -> bind m k s = (Fail e, s').
Proof. intros Hm. unfold bind. by rewrite Hm. Qed.

Lemma bind_inv {A B} (m : Tx St A) (k : A -> Tx St B) s b s' :
  bind m k s = (Ok b, s') ->
  exists a s1, m s = (Ok a, s1) /\ k a s1 = (Ok b, s').
Proof.
  unfold bind. destruct (m s) as [[a|e] s1]; [| done]. intros Hk. by exists a, s1.
Qed.

Lemma on_error_Ok {A B} (m : Tx St A) (k : A -> Tx St B) h s a s' :
  m s = (Ok a, s') -> on_error m k h s = k a s'.
Proof. intros Hm. unfold on_error. by rewrite Hm. Qed.

Lemma on_error_Fail {A B} (m : Tx St A) (k : A -> Tx St B) h s e s' :
  m s = (Fail e, s') -> on_error m k h s = h e s'.
Proof. intros Hm. unfold on_error. by rewrite Hm. Qed.
End RunningTransactions.

Section StoreWrites.
Context `{!Faults}.

Lemma ClearWorkspace_run branch s :
  fault (CClearWorkspace branch) = None ->
  ClearWorkspace branch s
  = (Ok tt, set_workspace (delete branch (st_workspace s)) s).
Proof. intros Hf. unfold ClearWorkspace, call. by rewrite Hf. Qed.

Lemma ClearWorkspace_inv branch s u s' :
  ClearWorkspace branch s = (Ok u, s') ->
  fault (CClearWorkspace branch) = None
  /\ s' = set_workspace (delete branch (st_workspace s)) s.
Proof.
  unfold ClearWorkspace, call, fail. destruct (fault _); [done |].
  by intros [= _ <-].
Qed.

Lemma WriteBranch_run name b s :
  fault (CWriteBranch name) = None ->
  WriteBranch name b s = (Ok tt, set_branches (<[name := b]> (st_branches s)) s).
Proof. intros Hf. unfold WriteBranch, call. by rewrite Hf. Qed.

Lemma WriteBranch_inv name b s u s' :
  WriteBranch name b s = (Ok u, s') ->
  fault (CWriteBranch name) = None
  /\ s' = set_branches (<[name := b]> (st_branches s)) s.
Proof.
  unfold WriteBranch, call, fail. destruct (fault _); [done |].
  by intros [= _ <-].
Qed.

Lemma WriteCommit_inv addr c s u s' :
  WriteCommit addr c s = (Ok u, s') ->
  fault (CWriteCommit addr) = None
  /\ s' = set_commits (<[addr := c]> (st_commits s)) s.
Proof.
  unfold WriteCommit, call, fail. destruct (fault _); [done |].
  by intros [= _ <-].
Qed.

Lemma WriteCommit_run addr c s :
  fault (CWriteCommit addr) = None ->
  WriteCommit addr c s = (Ok tt, set_commits (<[addr := c]> (st_commits s)) s).
Proof. intros Hf. unfold WriteCommit, call. by rewrite Hf. Qed.

Lemma ReadCommit_Ok addr s c s' :
  ReadCommit addr s = (Ok c, s') ->
  fault (CReadCommit addr) = None /\ st_commits s !! addr = Some c /\ s' = s.
Proof.
  unfold ReadCommit, call, lookup_or_not_found, fail.
  destruct (fault _); [done |]. destruct (st_commits s !! addr); [| done].
  by intros [= -> ->].
Qed.

Lemma ReadCommit_intro addr s c :
  fault (CReadCommit addr) = None -> st_commits s !! addr = Some c ->
  ReadCommit addr s = (Ok c, s).
Proof.
  intros Hf Hc. unfold ReadCommit, call, lookup_or_not_found. by rewrite Hf, Hc.
Qed.

Lemma ReadBranch_missing name s :
  fault (CReadBranch name) = None -> st_branches s !! name = None ->
  ReadBranch name s = (Fail ErrNotFound, s).
Proof.
  intros Hf Hb. unfold ReadBranch, call, lookup_or_not_found. by rewrite Hf, Hb.
Qed.

(** A failing read fails the same way on every store with the same
    records. *)
Lemma ReadBranch_Fail_state name s e s' :
  ReadBranch name s = (Fail e, s') -> s' = s.
Proof.
  intros Hb. pose proof (ReadBranch_state name s) as Hs. by rewrite Hb in Hs.
Qed.

Lemma ReadBranch_same_records name s s' :
  st_branches s' = st_branches s ->
  fst (ReadBranch name s') = fst (ReadBranch name s).
Proof.
  intros Heq. unfold ReadBranch, call, lookup_or_not_found, fail.
  destruct (fault _); [done |]. rewrite Heq.
  by destruct (st_branches s !! name).
Qed.

Lemma ReadCommit_same_records addr s s' :
  st_commits s' = st_commits s ->
  fst (ReadCommit addr s') = fst (ReadCommit addr s).
Proof.
  intros Heq. unfold ReadCommit, call, lookup_or_not_found, fail.
  destruct (fault _); [done |]. rewrite Heq.
  by destruct (st_commits s !! addr).
Qed.

(** A call returns the store with its value: the two projections. *)
Lemma run_eq {A} (m : Tx Store A) s r :
  fst (m s) = r -> snd (m s) = s -> m s = (r, s).
Proof. destruct (m s). simpl. by intros -> ->. Qed.
End StoreWrites.

Section BranchOperations.
Context `{!Faults, !Ident, !Path, !Merkle, !Validators}.
Context `{!BranchDeletionFaults, !Xerrors, !CommitIdValidator, !PathRoot}.

(** The store [ResetBranch] leaves. *)
Lemma ResetBranch_tx_run branch s br :
  fault (CClearWorkspace branch) = None ->
  ReadBranch branch s = (Ok br, s) ->
  fault (CWriteBranch branch) = None ->
  ResetBranch_tx branch s
  = (Ok tt,
     set_branches
       (<[branch := mkBranch (Branch_Name br) (Branch_Commit br)
                      (Branch_CommitRoot br) (Branch_CommitRoot br)]>
          (st_branches s))
       (set_workspace (delete branch (st_workspace s)) s)).
Proof.
  intros Hclear Hb Hwrite. unfold ResetBranch_tx.
  rewrite (bind_Ok _ _ _ _ _ (ClearWorkspace_run _ _ Hclear)).
  erewrite bind_Ok; [| by apply (ReadBranch_transport _ s)].
  unfold gc. erewrite bind_Ok; [| reflexivity].
  by rewrite WriteBranch_run.
Qed.

Lemma ResetBranch_tx_inv branch s s' :
  ResetBranch_tx branch s = (Ok tt, s') ->
  exists br,
    fault (CClearWorkspace branch) = None
    /\ ReadBranch branch s = (Ok br, s)
    /\ fault (CWriteBranch branch) = None.
Proof.
  unfold ResetBranch_tx. intros Hr.
  apply bind_inv in Hr as (u & s1 & Hclear & Hr).
  apply ClearWorkspace_inv in Hclear as [Hclear ->].
  apply bind_inv in Hr as (br & s2 & Hb & Hr).
  pose proof Hb as Hb'. apply ReadBranch_Ok in Hb' as (Hf & Hlook & ->).
  apply bind_inv in Hr as (u' & s3 & Hgc & Hr). injection Hgc as <-.
  apply WriteBranch_inv in Hr as [Hwrite _].
  exists br. split; [done |]. split; [| done].
  by apply ReadBranch_intro.
Qed.

(** X1: a [ResetBranch] on valid arguments, for a branch the store reads
    and with the two writes succeeding, returns without an error; the
    branch record keeps its commit and commit root and has the commit root
    as workspace root, the workspace of the branch is empty, and nothing
    else of the store changes. *)
Theorem ResetBranch_spec (repoId branch : string) (s : Store) (br : Branch) :
  ValidateAll [ValidateRepoId repoId; ValidateRef branch] = None ->
  fault (CClearWorkspace branch) = None ->
  ReadBranch branch s = (Ok br, s) ->
  fault (CWriteBranch branch) = None ->
  exists s',
    ResetBranch repoId branch s = (Ok tt, s')
    /\ st_branches s' !! branch
       = Some (mkBranch (Branch_Name br) (Branch_Commit br) (Branch_CommitRoot br)
                 (Branch_CommitRoot br))
    /\ workspace_of branch s' = ∅
    /\ (forall other, other <> branch ->
          st_branches s' !! other = st_branches s !! other
          /\ workspace_of other s' = workspace_of other s)
    /\ st_repo s' = st_repo s /\ st_commits s' = st_commits s
    /\ st_objects s' = st_objects s /\ st_trees s' = st_trees s.
Proof.
  intros Hv Hclear Hb Hwrite. eexists. split.
  { unfold ResetBranch, validated, RepoTransact. rewrite Hv.
    by rewrite (ResetBranch_tx_run _ _ _ Hclear Hb Hwrite). }
  simpl. split; [by rewrite lookup_insert_eq |].
  split; [unfold workspace_of; simpl; by rewrite lookup_delete_eq |].
  split; [| done].
  intros other Hne. split; [by rewrite lookup_insert_ne |].
  unfold workspace_of. simpl. by rewrite lookup_delete_ne.
Qed.

(** X2: a [ResetBranch] for a branch the store has no record of fails with
    the error of the read and leaves the store as it was, although its
    function had cleared the workspace of that name before it read the
    branch. *)
Theorem ResetBranch_missing_branch (repoId branch : string) (s : Store) (e : error) :
  ValidateAll [ValidateRepoId repoId; ValidateRef branch] = None ->
  fault (CClearWorkspace branch) = None ->
  ReadBranch branch s = (Fail e, s) ->
  ResetBranch repoId branch s = (Fail e, s)
  /\ fst (ResetBranch_tx branch s) = Fail e
  /\ workspace_of branch (snd (ResetBranch_tx branch s)) = ∅.
Proof.
  intros Hv Hclear Hb.
  assert (ResetBranch_tx branch s
          = (Fail e, set_workspace (delete branch (st_workspace s)) s)) as Hrun.
  { unfold ResetBranch_tx.
    rewrite (bind_Ok _ _ _ _ _ (ClearWorkspace_run _ _ Hclear)).
    apply bind_Fail. apply run_eq; [| apply ReadBranch_state].
    rewrite (ReadBranch_same_records _ s) by done. by rewrite Hb. }
  unfold ResetBranch, validated, RepoTransact. rewrite Hv, Hrun. simpl.
  repeat split. apply workspace_of_cleared.
Qed.

(** X3: [ResetBranch] twice in a row is [ResetBranch] once, on every
    store. *)
Theorem ResetBranch_idempotent (repoId branch : string) (s : Store) :
  (ResetBranch repoId branch ;;; ResetBranch repoId branch) s
  = ResetBranch repoId branch s.
Proof.
  unfold bind at 1.
  destruct (ResetBranch repoId branch s) as [[[]|e] s'] eqn:Hr; [| done].
  pose proof Hr as Hr'. apply validated_Ok, RepoTransact_Ok in Hr'.
  destruct (ResetBranch_tx_inv _ _ _ Hr') as (br & Hclear & Hb & Hwrite).
  rewrite (ResetBranch_tx_run _ _ _ Hclear Hb Hwrite) in Hr'.
  injection Hr' as <-.
  unfold ResetBranch, validated, RepoTransact in *.
  destruct (ValidateAll _); [done |].
  erewrite ResetBranch_tx_run; [| done | | done].
  2:{ apply ReadBranch_Ok in Hb as (Hf & _ & _). apply ReadBranch_intro; [done |].
      simpl. by rewrite lookup_insert_eq. }
  simpl. f_equal. unfold set_branches, set_workspace. simpl.
  by rewrite insert_insert_eq, delete_delete_eq.
Qed.

(** A destination whose record has equal roots and whose workspace lists
    nothing passes the check of [Merge]. *)
Lemma Merge_accepts_clean ts repoId source destination userId s b ops :
  ReadBranch destination s = (Ok b, s) ->
  Branch_CommitRoot b = Branch_WorkspaceRoot b ->
  fault (CListWorkspace destination) = None ->
  workspace_of destination s = ∅ ->
  Merge_tx ts repoId source destination userId (mkEnv s ops)
  = Merge_apply ts repoId source destination userId b (mkEnv s ops).
Proof.
  intros Hb Hroots Hf Hws.
  rewrite (Merge_tx_checked _ _ _ _ _ _ _ _ _ Hb (ListWorkspace_nil _ _ Hf Hws)).
  by rewrite (proj2 (uncommitted_check b [])).
Qed.

(** X4: after a [ResetBranch] that succeeded, [Merge] into that branch is
    not refused for uncommitted work, whatever was staged or folded
    before: the function of [Merge] goes on past the check of the
    destination. *)
Theorem ResetBranch_then_Merge (repoId branch : string) (s s' : Store) :
  ResetBranch repoId branch s = (Ok tt, s') ->
  fault (CListWorkspace branch) = None ->
  exists b,
    ReadBranch branch s' = (Ok b, s')
    /\ forall ts source userId ops,
         Merge_tx ts repoId source branch userId (mkEnv s' ops)
         = Merge_apply ts repoId source branch userId b (mkEnv s' ops).
Proof.
  intros Hr Hlist. apply validated_Ok, RepoTransact_Ok in Hr.
  destruct (ResetBranch_tx_inv _ _ _ Hr) as (br & Hclear & Hb & Hwrite).
  rewrite (ResetBranch_tx_run _ _ _ Hclear Hb Hwrite) in Hr. injection Hr as <-.
  eexists. split.
  { apply ReadBranch_Ok in Hb as (Hf & _ & _). apply ReadBranch_intro; [done |].
    simpl. by rewrite lookup_insert_eq. }
  intros ts source userId ops. apply Merge_accepts_clean; [| done | done |].
  - apply ReadBranch_Ok in Hb as (Hf & _ & _). apply ReadBranch_intro; [done |].
    simpl. by rewrite lookup_insert_eq.
  - unfold workspace_of. simpl. by rewrite lookup_delete_eq.
Qed.

(** X5: [CreateBranch] for a name the store has a branch record of fails
    with [ErrBranchAlreadyExists] and leaves the store as it was, whatever
    the ref. *)
Theorem CreateBranch_exists (repoId branch ref : string) (s : Store) (b : Branch) :
  ValidateAll [ValidateRepoId repoId; ValidateRef ref; ValidateRef branch] = None ->
  ReadBranch branch s = (Ok b, s) ->
  CreateBranch repoId branch ref s = (Fail ErrBranchAlreadyExists, s).
Proof.
  intros Hv Hb. unfold CreateBranch, validated, RepoTransact. rewrite Hv.
  unfold CreateBranch_tx. by rewrite (on_error_Ok _ _ _ _ _ _ Hb).
Qed.

Lemma ValidateAll_cons check checks :
  ValidateAll (check :: checks) = None <-> check = None /\ ValidateAll checks = None.
Proof.
  destruct check; simpl; (split; [| intros [? ?]]); done.
Qed.

(** X6: [CreateBranch] on valid arguments, for a name without a branch
    record and a ref that resolves: the new record has the resolved
    commit's address as commit and its tree as both roots, [GetBranch]
    returns it, and only the branch records change; in particular the
    workspace entries kept under that name stay as they are. *)
Theorem CreateBranch_spec (repoId branch ref : string) (s : Store) (r : reference) :
  ValidateAll [ValidateRepoId repoId; ValidateRef ref; ValidateRef branch] = None ->
  fault (CReadBranch branch) = None -> st_branches s !! branch = None ->
  resolveRef ref s = (Ok r, s) ->
  fault (CWriteBranch branch) = None ->
  let created :=
    mkBranch branch (Commit_Address (reference_commit r))
      (Commit_Tree (reference_commit r)) (Commit_Tree (reference_commit r)) in
  exists s',
    CreateBranch repoId branch ref s = (Ok created, s')
    /\ GetBranch repoId branch s' = (Ok created, s')
    /\ s' = set_branches (<[branch := created]> (st_branches s)) s
    /\ st_workspace s' = st_workspace s.
Proof.
  intros Hv Hf Hnone Hr Hwrite created. eexists. split; [| split; [| split]].
  - unfold CreateBranch, validated, RepoTransact. rewrite Hv.
    unfold CreateBranch_tx.
    rewrite (on_error_Fail _ _ _ _ _ _ (ReadBranch_missing _ _ Hf Hnone)).
    cbn [is_ErrNotFound negb].
    rewrite (bind_Ok _ _ _ _ _ (on_error_Ok _ _ _ _ _ _ Hr)). unfold ret at 1.
    rewrite (bind_Ok _ _ _ _ _ (WriteBranch_run _ _ _ Hwrite)). reflexivity.
  - unfold GetBranch, validated, RepoReadTransact.
    apply ValidateAll_cons in Hv as [Hrepo Hv].
    apply ValidateAll_cons in Hv as [_ Hv].
    rewrite (proj2 (ValidateAll_cons _ _) (conj Hrepo Hv)).
    apply ReadBranch_intro; [done |]. simpl. by rewrite lookup_insert_eq.
  - reflexivity.
  - reflexivity.
Qed.

(** X7: a branch created under a name that has workspace entries (staged
    by writes before the branch existed) starts with uncommitted work:
    [Merge] into it is refused with [ErrDestinationNotCommitted]. *)
Theorem CreateBranch_inherits_workspace (repoId branch ref : string)
    (s s' : Store) (created : Branch) :
  CreateBranch repoId branch ref s = (Ok created, s') ->
  fault (CReadBranch branch) = None ->
  fault (CListWorkspace branch) = None ->
  workspace_of branch s <> ∅ ->
  forall ts source userId,
    ValidateAll [ValidateRepoId repoId; ValidateRef source; ValidateRef branch]
      = None ->
    Merge ts repoId source branch userId s'
    = (([], Some ErrDestinationNotCommitted), s').
Proof.
  intros Hc Hf Hlist Hws ts source userId Hv.
  apply validated_Ok, RepoTransact_Ok in Hc. unfold CreateBranch_tx in Hc.
  unfold on_error at 1 in Hc.
  pose proof (ReadBranch_state branch s) as Hbs.
  destruct (ReadBranch branch s) as [[b|e] s0] eqn:Hb; simpl in Hbs; subst s0;
    [done |].
  destruct (negb (is_ErrNotFound e)); [done |].
  apply bind_inv in Hc as (r & s1 & Hr & Hc).
  assert (s1 = s) as ->.
  { unfold on_error in Hr. pose proof (resolveRef_state ref s) as Hrs.
    destruct (resolveRef ref s) as [[r'|e'] s0]; simpl in Hrs; subst s0; [| done].
    by injection Hr as _ <-. }
  apply bind_inv in Hc as (u & s2 & Hw & Hc). injection Hc as <- <-.
  apply WriteBranch_inv in Hw as [Hwrite ->].
  set (s' := set_branches _ s).
  assert (exists b', ReadBranch branch s' = (Ok b', s')) as [b' Hb'].
  { eexists. apply ReadBranch_intro; [done |]. unfold s'. simpl.
    apply lookup_insert_eq. }
  assert (ListWorkspace branch s'
          = (Ok ((map_to_list (workspace_of branch s)).*2), s')) as Hl.
  { unfold ListWorkspace, call. by rewrite Hlist. }
  unfold Merge. rewrite Hv. unfold RepoTransact_capturing.
  rewrite (Merge_tx_checked _ _ _ _ _ _ _ _ _ Hb' Hl).
  destruct (_ || _) eqn:Hcheck; [done |].
  apply uncommitted_check in Hcheck as [_ Hnil].
  apply fmap_nil_inv, map_to_list_empty_iff in Hnil. done.
Qed.

Lemma DeleteBranch_tx_run branch s br :
  ReadBranch branch s = (Ok br, s) ->
  fault (CClearWorkspace branch) = None ->
  fault_DeleteBranch branch = None ->
  DeleteBranch_tx branch s
  = (Ok tt,
     set_branches (delete branch (st_branches s))
       (set_workspace (delete branch (st_workspace s)) s)).
Proof.
  intros Hb Hclear Hdel. unfold DeleteBranch_tx.
  rewrite (bind_Ok _ _ _ _ _ Hb).
  rewrite (bind_Ok _ _ _ _ _ (ClearWorkspace_run _ _ Hclear)).
  unfold gc. erewrite bind_Ok; [| reflexivity].
  unfold tx_DeleteBranch. by rewrite Hdel.
Qed.

(** X8: a [DeleteBranch] on valid arguments, for a branch the store reads
    and with its two writes succeeding, removes the branch record and the
    workspace of the branch and nothing else: the commits stay, and the
    name no longer resolves unless it is the address of a commit.  For a
    name without a branch record it fails with the error of the read and
    changes nothing. *)
Theorem DeleteBranch_spec (repoId branch : string) (s : Store) :
  ValidateAll [ValidateRepoId repoId; ValidateRef branch] = None ->
  (forall br, ReadBranch branch s = (Ok br, s) ->
     fault (CClearWorkspace branch) = None ->
     fault_DeleteBranch branch = None ->
     exists s',
       DeleteBranch repoId branch s = (Ok tt, s')
       /\ ReadBranch branch s' = (Fail ErrNotFound, s')
       /\ workspace_of branch s' = ∅
       /\ (names_no_commit branch s' ->
           resolveRef branch s' = (Fail ErrNotFound, s'))
       /\ (forall other, other <> branch ->
             st_branches s' !! other = st_branches s !! other
             /\ workspace_of other s' = workspace_of other s)
       /\ st_repo s' = st_repo s /\ st_commits s' = st_commits s
       /\ st_objects s' = st_objects s /\ st_trees s' = st_trees s)
  /\ (forall e, ReadBranch branch s = (Fail e, s) ->
       DeleteBranch repoId branch s = (Fail e, s)).
Proof.
  intros Hv. split.
  - intros br Hb Hclear Hdel. eexists. split.
    { unfold DeleteBranch, validated, RepoTransact. rewrite Hv.
      by rewrite (DeleteBranch_tx_run _ _ _ Hb Hclear Hdel). }
    apply ReadBranch_Ok in Hb as (Hf & _ & _).
    assert (forall s0, ReadBranch branch
              (set_branches (delete branch (st_branches s)) s0)
            = (Fail ErrNotFound, set_branches (delete branch (st_branches s)) s0))
      as Hgone.
    { intros s0. apply ReadBranch_missing; [done |]. simpl. apply lookup_delete_eq. }
    split; [apply Hgone |].
    split; [unfold workspace_of; simpl; by rewrite lookup_delete_eq |].
    split.
    { intros Hn. unfold resolveRef.
      assert (forall k : Branch -> Tx Store reference,
                (b <- ReadBranch branch ;; k b)
                  (set_branches (delete branch (st_branches s))
                     (set_workspace (delete branch (st_workspace s)) s))
                = (Fail ErrNotFound,
                   set_branches (delete branch (st_branches s))
                     (set_workspace (delete branch (st_workspace s)) s))) as Hbind.
      { intros k. apply bind_Fail, Hgone. }
      destruct Hn as [-> | (e & He & Hnf)]; [apply Hbind |].
      destruct (ident_IsHash branch); [| apply Hbind].
      rewrite (on_error_Fail _ _ _ _ _ _ He), Hnf. apply Hbind. }
    split; [| done].
    intros other Hne. simpl. split; [by rewrite lookup_delete_ne |].
    unfold workspace_of. simpl. by rewrite lookup_delete_ne.
  - intros e Hb. unfold DeleteBranch, validated, RepoTransact. rewrite Hv.
    unfold DeleteBranch_tx. by rewrite (bind_Fail _ _ _ _ _ Hb).
Qed.

(** X9: [DeleteBranch] undoes [CreateBranch]: creating a branch under a
    name that has neither a record nor workspace entries and deleting it
    again gives back the store, record for record. *)
Theorem CreateBranch_then_DeleteBranch (repoId branch ref : string)
    (s s' : Store) (created : Branch) :
  CreateBranch repoId branch ref s = (Ok created, s') ->
  fault (CReadBranch branch) = None ->
  st_workspace s !! branch = None ->
  fault (CClearWorkspace branch) = None ->
  fault_DeleteBranch branch = None ->
  DeleteBranch repoId branch s' = (Ok tt, s).
Proof.
  intros Hc Hf Hws Hclear Hdel.
  pose proof Hc as Hv. unfold CreateBranch, validated in Hv.
  destruct (ValidateAll _) eqn:Hvalid in Hv; [done |]. clear Hv.
  apply validated_Ok, RepoTransact_Ok in Hc. unfold CreateBranch_tx in Hc.
  unfold on_error at 1 in Hc.
  pose proof (ReadBranch_state branch s) as Hbs.
  destruct (ReadBranch branch s) as [[b|e] s0] eqn:Hb; simpl in Hbs; subst s0;
    [done |].
  assert (st_branches s !! branch = None) as Hnone.
  { unfold ReadBranch, call, lookup_or_not_found in Hb. rewrite Hf in Hb.
    by destruct (st_branches s !! branch). }
  destruct (negb (is_ErrNotFound e)); [done |].
  apply bind_inv in Hc as (r & s1 & Hr & Hc).
  assert (s1 = s) as ->.
  { unfold on_error in Hr. pose proof (resolveRef_state ref s) as Hrs.
    destruct (resolveRef ref s) as [[r'|e'] s0]; simpl in Hrs; subst s0; [| done].
    by injection Hr as _ <-. }
  apply bind_inv in Hc as (u & s2 & Hw & Hc). injection Hc as _ <-.
  apply WriteBranch_inv in Hw as [Hwrite ->].
  unfold DeleteBranch, validated, RepoTransact.
  apply ValidateAll_cons in Hvalid as [Hrepo Hvalid].
  apply ValidateAll_cons in Hvalid as [_ Hvalid].
  rewrite (proj2 (ValidateAll_cons _ _) (conj Hrepo Hvalid)).
  erewrite DeleteBranch_tx_run; [| | done | done].
  2:{ apply ReadBranch_intro; [done |]. simpl. apply lookup_insert_eq. }
  f_equal. destruct s as [repo branches commits objects workspace trees].
  unfold set_branches, set_workspace. simpl in *.
  by rewrite delete_insert_eq, (delete_id workspace), (delete_id branches).
Qed.

Lemma RevertCommit_tx_run branch commit s commitData br :
  fault (CClearWorkspace branch) = None ->
  ReadCommit commit s = (Ok commitData, s) ->
  ReadBranch branch s = (Ok br, s) ->
  fault (CWriteBranch branch) = None ->
  RevertCommit_tx branch commit s
  = (Ok tt,
     set_branches
       (<[branch := mkBranch (Branch_Name br) commit (Commit_Tree commitData)
                      (Commit_Tree commitData)]> (st_branches s))
       (set_workspace (delete branch (st_workspace s)) s)).
Proof.
  intros Hclear Hc Hb Hwrite. unfold RevertCommit_tx.
  rewrite (bind_Ok _ _ _ _ _ (ClearWorkspace_run _ _ Hclear)).
  erewrite bind_Ok.
  2:{ apply ReadCommit_Ok in Hc as (Hf & Hc & _). by apply ReadCommit_intro. }
  erewrite bind_Ok; [| by apply (ReadBranch_transport _ s)].
  unfold gc. erewrite bind_Ok; [| reflexivity].
  by rewrite WriteBranch_run.
Qed.

(** X10: a [RevertCommit] on valid arguments, for a branch and a commit the
    store reads, points the branch at that commit (any commit of the
    store: its relation to the branch's history is not looked at), makes
    the commit's tree both roots and empties the workspace; reverting a
    branch to its own commit, when its commit root is that commit's tree,
    is [ResetBranch].  For a commit the store does not have it fails and
    changes nothing. *)
Theorem RevertCommit_spec (repoId branch commit : string) (s : Store) :
  ValidateAll [ValidateRepoId repoId; ValidateRef branch; ValidateCommitID commit]
    = None ->
  fault (CClearWorkspace branch) = None ->
  (forall commitData br,
     ReadCommit commit s = (Ok commitData, s) ->
     ReadBranch branch s = (Ok br, s) ->
     fault (CWriteBranch branch) = None ->
     exists s',
       RevertCommit repoId branch commit s = (Ok tt, s')
       /\ st_branches s' !! branch
          = Some (mkBranch (Branch_Name br) commit (Commit_Tree commitData)
                    (Commit_Tree commitData))
       /\ workspace_of branch s' = ∅
       /\ st_commits s' = st_commits s
       /\ (commit = Branch_Commit br ->
           Commit_Tree commitData = Branch_CommitRoot br ->
           RevertCommit repoId branch commit s = ResetBranch repoId branch s))
  /\ (forall e, ReadCommit commit s = (Fail e, s) ->
       RevertCommit repoId branch commit s = (Fail e, s)).
Proof.
  intros Hv Hclear. split.
  - intros commitData br Hc Hb Hwrite.
    assert (RevertCommit repoId branch commit s
            = RepoTransact repoId (RevertCommit_tx branch commit) s) as Hrun.
    { unfold RevertCommit, validated. by rewrite Hv. }
    eexists. split.
    { rewrite Hrun. unfold RepoTransact.
      by rewrite (RevertCommit_tx_run _ _ _ _ _ Hclear Hc Hb Hwrite). }
    simpl. split; [by rewrite lookup_insert_eq |].
    split; [unfold workspace_of; simpl; by rewrite lookup_delete_eq |].
    split; [done |].
    intros -> Htree. rewrite Hrun. unfold ResetBranch, validated, RepoTransact.
    apply ValidateAll_cons in Hv as [Hrepo Hv].
    apply ValidateAll_cons in Hv as [Href _].
    assert (ValidateAll [ValidateRepoId repoId; ValidateRef branch] = None) as ->
      by (simpl; by rewrite Hrepo, Href).
    rewrite (RevertCommit_tx_run _ _ _ _ _ Hclear Hc Hb Hwrite).
    rewrite (ResetBranch_tx_run _ _ _ Hclear Hb Hwrite). by rewrite Htree.
  - intros e Hc. unfold RevertCommit, validated, RepoTransact. rewrite Hv.
    unfold RevertCommit_tx.
    rewrite (bind_Ok _ _ _ _ _ (ClearWorkspace_run _ _ Hclear)).
    erewrite bind_Fail; [done |].
    apply run_eq; [| apply ReadCommit_state].
    rewrite (ReadCommit_same_records _ s) by done. by rewrite Hc.
Qed.
End BranchOperations.

Section ReadingWrites.
Context `{!Faults, !Ident, !Path, !Merkle, !Validators}.
Context `{!BranchDeletionFaults, !Xerrors, !CommitIdValidator, !PathRoot}.

Lemma shouldPartiallyCommit_not chosen repo :
  (Repo_PartialCommitRatio repo <= chosen)%Q ->
  shouldPartiallyCommit chosen repo = false.
Proof.
  intros Hle. unfold shouldPartiallyCommit.
  destruct (chosen ?= Repo_PartialCommitRatio repo)%Q eqn:Hcmp; [done | | done].
  apply Qlt_alt in Hcmp. by apply Qlt_not_le in Hcmp.
Qed.

(** Two stores on which a read returns the same value give the same
    value to what follows it. *)
Lemma on_error_same {A B} (m : Tx Store A) (k : A -> Tx Store B) h s s' :
  snd (m s) = s -> snd (m s') = s' -> fst (m s') = fst (m s) ->
  (forall a, fst (k a s') = fst (k a s)) ->
  (forall e, fst (h e s') = fst (h e s)) ->
  fst (on_error m k h s') = fst (on_error m k h s).
Proof.
  unfold on_error. destruct (m s) as [r1 s1], (m s') as [r2 s2]. simpl.
  intros -> -> -> Hk Hh. by destruct r1.
Qed.

Lemma bind_same {A B} (m : Tx Store A) (k : A -> Tx Store B) s s' :
  snd (m s) = s -> snd (m s') = s' -> fst (m s') = fst (m s) ->
  (forall a, fst (k a s') = fst (k a s)) ->
  fst (bind m k s') = fst (bind m k s).
Proof.
  unfold bind. destruct (m s) as [r1 s1], (m s') as [r2 s2]. simpl.
  intros -> -> -> Hk. by destruct r1.
Qed.

(** Resolution looks at the branch and commit records only. *)
Lemma resolveRef_same_records ref s s' :
  st_branches s' = st_branches s -> st_commits s' = st_commits s ->
  fst (resolveRef ref s') = fst (resolveRef ref s).
Proof.
  intros Hb Hc.
  assert (Hbranch :
    fst ((branch <- ReadBranch ref ;;
          commit <- ReadCommit (Branch_Commit branch) ;;
          ret (mkreference commit (Some branch) true)) s')
    = fst ((branch <- ReadBranch ref ;;
            commit <- ReadCommit (Branch_Commit branch) ;;
            ret (mkreference commit (Some branch) true)) s)).
  { apply bind_same; [apply ReadBranch_state | apply ReadBranch_state
                     | by apply ReadBranch_same_records |].
    intros b. apply bind_same; [apply ReadCommit_state | apply ReadCommit_state
                               | by apply ReadCommit_same_records | done]. }
  unfold resolveRef. destruct (ident_IsHash ref); [| done].
  apply on_error_same; [apply ReadCommit_state | apply ReadCommit_state
                       | by apply ReadCommit_same_records | done |].
  intros e. by destruct (negb (is_ErrNotFound e)).
Qed.

Lemma resolveRef_transport ref s s' r :
  st_branches s' = st_branches s -> st_commits s' = st_commits s ->
  resolveRef ref s = (Ok r, s) -> resolveRef ref s' = (Ok r, s').
Proof.
  intros Hb Hc Hr. apply run_eq; [| apply resolveRef_state].
  rewrite (resolveRef_same_records _ s) by done. by rewrite Hr.
Qed.

(** A write that is not folded only stages its entry. *)
Lemma writeEntryToWorkspace_staged chosen repo branch path we s s' :
  (Repo_PartialCommitRatio repo <= chosen)%Q ->
  writeEntryToWorkspace chosen repo branch path we s = (Ok tt, s') ->
  s' = set_workspace
         (<[branch := <[path := we]> (workspace_of branch s)]> (st_workspace s)) s.
Proof.
  intros Hle. unfold writeEntryToWorkspace.
  rewrite (shouldPartiallyCommit_not _ _ Hle).
  unfold bind, WriteToWorkspacePath, call, fail, ret.
  destruct (fault _); [done |]. by intros [= <-].
Qed.

Lemma ReadFromWorkspace_staged branch path we w s :
  fault (CReadFromWorkspace branch path) = None ->
  workspace_of branch s = <[path := we]> w ->
  ReadFromWorkspace branch path s = (Ok we, s).
Proof.
  intros Hf Hw. unfold ReadFromWorkspace, call, lookup_or_not_found.
  by rewrite Hf, Hw, lookup_insert_eq.
Qed.

Lemma workspace_of_staged branch path we s0 s :
  workspace_of branch
    (set_workspace
       (<[branch := <[path := we]> (workspace_of branch s0)]> (st_workspace s0)) s)
  = <[path := we]> (workspace_of branch s0).
Proof. unfold workspace_of at 1. simpl. by rewrite lookup_insert_eq. Qed.

Lemma ReadRepo_intro s repo :
  fault CReadRepo = None -> st_repo s = Some repo -> ReadRepo s = (Ok repo, s).
Proof.
  intros Hf Hr. unfold ReadRepo, call, lookup_or_not_found. by rewrite Hf, Hr.
Qed.

Lemma ReadRepo_fault s repo s' :
  ReadRepo s = (Ok repo, s') -> fault CReadRepo = None.
Proof. unfold ReadRepo, call, fail. by destruct (fault CReadRepo). Qed.

(** How the two reads run on a branch whose workspace has an entry at the
    path. *)
Lemma ReadObject_tx_workspace ref path s repo r we :
  ReadRepo s = (Ok repo, s) -> resolveRef ref s = (Ok r, s) ->
  reference_isBranch r = true ->
  ReadFromWorkspace (Branch_GetName (reference_branch r)) path s = (Ok we, s) ->
  ReadObject_tx ref path s
  = if WorkspaceEntry_Tombstone we then (Fail ErrNotFound, s)
    else tx_ReadObject (Entry_GetAddress (WorkspaceEntry_Entry we)) s.
Proof.
  intros Hrepo Hr Hbranch Hw. unfold ReadObject_tx.
  rewrite (bind_Ok _ _ _ _ _ Hrepo), (bind_Ok _ _ _ _ _ Hr), Hbranch.
  rewrite (on_error_Ok _ _ _ _ _ _ Hw).
  by destruct (WorkspaceEntry_Tombstone we).
Qed.

Lemma readEntry_workspace ref path typ s repo r we :
  ReadRepo s = (Ok repo, s) -> resolveRef ref s = (Ok r, s) ->
  reference_isBranch r = true ->
  ReadFromWorkspace (Branch_GetName (reference_branch r)) path s = (Ok we, s) ->
  readEntry ref path typ s
  = if WorkspaceEntry_Tombstone we then (Fail ErrNotFound, s)
    else (Ok (WorkspaceEntry_Entry we), s).
Proof.
  intros Hrepo Hr Hbranch Hw. unfold readEntry.
  rewrite (bind_Ok _ _ _ _ _ Hrepo), (bind_Ok _ _ _ _ _ Hr). cbv zeta.
  rewrite Hbranch, (on_error_Ok _ _ _ _ _ _ Hw).
  by destruct (WorkspaceEntry_Tombstone we).
Qed.

(** X11: read your write.  After a [WriteObject] that succeeded and was not
    folded (the draw is not below the repository's ratio), [ReadObject] of
    the same branch and path returns the object written, when the name
    resolves to the branch and the two reads of the store do not fail. *)
Theorem WriteObject_then_ReadObject (chosen : Q) (ts : Z)
    (repoId branch path : string) (object : Object) (s s' : Store)
    (repo : Repo) (r : reference) :
  WriteObject chosen ts repoId branch path object s = (Ok tt, s') ->
  st_repo s = Some repo -> (Repo_PartialCommitRatio repo <= chosen)%Q ->
  resolveRef branch s = (Ok r, s) -> reference_isBranch r = true ->
  Branch_GetName (reference_branch r) = branch ->
  fault (CReadFromWorkspace branch path) = None ->
  fault (CReadObject (ident_Hash_Object object)) = None ->
  ReadObject repoId branch path s' = (Ok object, s').
Proof.
  intros Hw Hrepo Hle Hr Hbranch Hname Hfws Hfobj.
  unfold ReadObject, validated, RepoReadTransact.
  unfold WriteObject, validated in Hw.
  destruct (ValidateAll _); [done |].
  apply RepoTransact_Ok in Hw. cbv zeta in Hw.
  apply bind_inv in Hw as (u & s1 & Hobj & Hw).
  unfold tx_WriteObject, call, fail in Hobj.
  destruct (fault (CWriteObject _)); [done |]. injection Hobj as _ <-.
  apply bind_inv in Hw as (repo' & s2 & Hrr & Hw).
  pose proof (ReadRepo_fault _ _ _ Hrr) as Hfrepo.
  apply ReadRepo_Ok in Hrr as [Hrr ->].
  assert (repo' = repo) as -> by (simpl in Hrr; congruence).
  apply (writeEntryToWorkspace_staged _ _ _ _ _ _ _ Hle) in Hw. subst s'.
  erewrite ReadObject_tx_workspace with (repo := repo) (r := r);
    [| by apply ReadRepo_intro | by apply (resolveRef_transport _ s) | done |].
  2:{ rewrite Hname. eapply ReadFromWorkspace_staged; [done |].
      apply workspace_of_staged. }
  cbn [WorkspaceEntry_Tombstone WorkspaceEntry_Entry Entry_GetAddress Entry_Address].
  unfold tx_ReadObject, call, lookup_or_not_found. rewrite Hfobj. simpl.
  by rewrite lookup_insert_eq.
Qed.

(** X12: a staged entry is read back whatever kind of entry is asked for.
    After a [WriteEntry] that succeeded and was not folded, [ReadEntry] of
    the same branch and path returns the entry written for both kinds, so
    [ReadEntryTree] and [ReadEntryObject] return the same entry. *)
Theorem WriteEntry_then_ReadEntry (chosen : Q) (repoId branch path : string)
    (entry : option Entry) (s s' : Store) (repo : Repo) (r : reference) :
  WriteEntry chosen repoId branch path entry s = (Ok tt, s') ->
  st_repo s = Some repo -> (Repo_PartialCommitRatio repo <= chosen)%Q ->
  resolveRef branch s = (Ok r, s) -> reference_isBranch r = true ->
  Branch_GetName (reference_branch r) = branch ->
  fault (CReadFromWorkspace branch path) = None ->
  (forall typ, ReadEntry repoId branch path typ s' = (Ok entry, s'))
  /\ ReadEntryTree repoId branch path s' = (Ok entry, s')
  /\ ReadEntryObject repoId branch path s' = (Ok entry, s').
Proof.
  intros Hw Hrepo Hle Hr Hbranch Hname Hfws.
  unfold WriteEntry, validated in Hw.
  destruct (ValidateAll _) eqn:Hv; [done |].
  apply RepoTransact_Ok in Hw.
  apply bind_inv in Hw as (repo' & s2 & Hrr & Hw).
  pose proof (ReadRepo_fault _ _ _ Hrr) as Hfrepo.
  apply ReadRepo_Ok in Hrr as [Hrr ->].
  assert (repo' = repo) as -> by congruence.
  apply (writeEntryToWorkspace_staged _ _ _ _ _ _ _ Hle) in Hw. subst s'.
  assert (Hread : forall typ,
    ReadEntry repoId branch path typ
      (set_workspace
         (<[branch := <[path := mkWorkspaceEntry path entry false]>
                        (workspace_of branch s)]> (st_workspace s)) s)
    = (Ok entry,
       set_workspace
         (<[branch := <[path := mkWorkspaceEntry path entry false]>
                        (workspace_of branch s)]> (st_workspace s)) s)).
  { intros typ. unfold ReadEntry, validated, RepoReadTransact. rewrite Hv.
    erewrite readEntry_workspace with (repo := repo) (r := r);
      [| by apply ReadRepo_intro | by apply (resolveRef_transport _ s) | done |].
    2:{ rewrite Hname. eapply ReadFromWorkspace_staged; [done |].
        apply workspace_of_staged. }
    reflexivity. }
  split; [done |].
  unfold ReadEntryTree, ReadEntryObject, validated. by rewrite Hv.
Qed.

(** The store a [DeleteObject] that staged a tombstone without folding it
    leaves: the same branch and commit records, and the tombstone at the
    path. *)
Lemma DeleteObject_staged chosen ts repoId branch path s s' repo br me :
  DeleteObject chosen ts repoId branch path s = (Ok tt, s') ->
  st_repo s = Some repo -> (Repo_PartialCommitRatio repo <= chosen)%Q ->
  ReadBranch branch s = (Ok br, s) ->
  merkle_GetEntry (Branch_WorkspaceRoot br) path Entry_OBJECT s = Ok me ->
  st_branches s' = st_branches s /\ st_commits s' = st_commits s
  /\ st_repo s' = st_repo s /\ fault CReadRepo = None
  /\ exists w, workspace_of branch s' = <[path := tombstone path ts]> w.
Proof.
  intros Hd Hrepo Hle Hb Ht.
  apply validated_Ok, RepoTransact_Ok in Hd. unfold DeleteObject_tx in Hd.
  apply bind_inv in Hd as (repo' & s0 & Hrr & Hd).
  pose proof (ReadRepo_fault _ _ _ Hrr) as Hfrepo.
  apply ReadRepo_Ok in Hrr as [Hrr ->].
  assert (repo' = repo) as -> by congruence.
  apply bind_inv in Hd as ([wsEntry n] & s0 & Hws & Hd).
  assert (s0 = s /\ (n = 0 \/ n = 1)%nat) as [-> Hn].
  { unfold on_error in Hws.
    pose proof (ReadFromWorkspace_state branch path s) as Hs.
    destruct (ReadFromWorkspace branch path s) as [[we|e] s1]; simpl in Hs; subst s1.
    - injection Hws as _ <- <-. auto.
    - destruct (is_ErrNotFound e); [| done]. injection Hws as _ <- <-. auto. }
  cbn [fst snd] in Hd. rewrite (bind_Ok _ _ _ _ _ Hb) in Hd.
  unfold bind at 1, on_error at 1, readonly at 1 in Hd. rewrite Ht in Hd.
  unfold ret at 1 in Hd. cbn [fst snd] in Hd.
  assert ((n =? 2)%nat = false) as Hn2 by (by destruct Hn as [-> | ->]).
  rewrite Hn2 in Hd.
  apply bind_inv in Hd as (u & s1 & Hdel & Hd).
  apply (writeEntryToWorkspace_staged _ _ _ _ _ _ _ Hle) in Hd. subst s'.
  assert (st_branches s1 = st_branches s /\ st_commits s1 = st_commits s
          /\ st_repo s1 = st_repo s) as (Hb1 & Hc1 & Hr1).
  { destruct wsEntry as [we|]; [| unfold ret in Hdel; by injection Hdel as _ <-].
    destruct (WorkspaceEntry_Tombstone we); [done |].
    unfold DeleteWorkspacePath, call, fail in Hdel.
    destruct (fault _); [done |]. by injection Hdel as _ <-. }
  repeat split; [done | done | done | done |].
  eexists. apply workspace_of_staged.
Qed.

(** X13: after a [DeleteObject] that succeeded on a path the tree of the
    branch holds and that was not folded, [ReadObject] and [ReadEntry] of
    that branch and path fail with not-found, for either kind of entry. *)
Theorem DeleteObject_then_reads (chosen : Q) (ts : Z) (repoId branch path : string)
    (s s' : Store) (repo : Repo) (br : Branch) (me : Entry) (r : reference) :
  DeleteObject chosen ts repoId branch path s = (Ok tt, s') ->
  st_repo s = Some repo -> (Repo_PartialCommitRatio repo <= chosen)%Q ->
  ReadBranch branch s = (Ok br, s) ->
  merkle_GetEntry (Branch_WorkspaceRoot br) path Entry_OBJECT s = Ok me ->
  resolveRef branch s = (Ok r, s) -> reference_isBranch r = true ->
  Branch_GetName (reference_branch r) = branch ->
  fault (CReadFromWorkspace branch path) = None ->
  ReadObject repoId branch path s' = (Fail ErrNotFound, s')
  /\ forall typ, ReadEntry repoId branch path typ s' = (Fail ErrNotFound, s').
Proof.
  intros Hd Hrepo Hle Hb Ht Hr Hbranch Hname Hfws.
  destruct (DeleteObject_staged _ _ _ _ _ _ _ _ _ _ Hd Hrepo Hle Hb Ht)
    as (Hbs & Hcs & Hrs & Hfrepo & w & Hw).
  unfold DeleteObject, validated in Hd.
  destruct (ValidateAll _) eqn:Hv; [done |]. clear Hd.
  assert (ReadRepo s' = (Ok repo, s')) as Hrepo'
    by (apply ReadRepo_intro; [done | congruence]).
  assert (resolveRef branch s' = (Ok r, s')) as Hr'
    by (by apply (resolveRef_transport _ s)).
  assert (ReadFromWorkspace (Branch_GetName (reference_branch r)) path s'
          = (Ok (tombstone path ts), s')) as Hws.
  { rewrite Hname. by eapply ReadFromWorkspace_staged. }
  split.
  - unfold ReadObject, validated, RepoReadTransact. rewrite Hv.
    by rewrite (ReadObject_tx_workspace _ _ _ _ _ _ Hrepo' Hr' Hbranch Hws).
  - intros typ. unfold ReadEntry, validated, RepoReadTransact. rewrite Hv.
    by rewrite (readEntry_workspace _ _ _ _ _ _ _ Hrepo' Hr' Hbranch Hws).
Qed.

Lemma readEntry_state ref path typ s : snd (readEntry ref path typ s) = s.
Proof.
  unfold readEntry, bind, on_error, fail, ret, readonly.
  pose proof (ReadRepo_state s) as Hrepo. run_read Hrepo; [| done].
  pose proof (resolveRef_state ref s) as Href. run_read Href; [| done].
  cbv zeta. destruct (reference_isBranch a0).
  - pose proof (ReadFromWorkspace_state (Branch_GetName (reference_branch a0)) path s)
      as Hws.
    run_read Hws.
    + by destruct (WorkspaceEntry_Tombstone a1).
    + destruct (negb (is_ErrNotFound e)); [done |].
      by destruct (merkle_GetEntry _ path typ s).
  - by destruct (merkle_GetEntry _ path typ s).
Qed.

(** X14: the reads and diffs that run in a read transaction ([ReadEntry],
    [ReadEntryTree], [ReadEntryObject], [GetBranch], [GetCommit], [Diff])
    leave the store as it is, for all arguments and whatever they
    return. *)
Theorem read_operations_leave_store (s : Store) :
  (forall repoId ref path typ, snd (ReadEntry repoId ref path typ s) = s)
  /\ (forall repoId ref path, snd (ReadEntryTree repoId ref path s) = s)
  /\ (forall repoId ref path, snd (ReadEntryObject repoId ref path s) = s)
  /\ (forall repoId branch, snd (GetBranch repoId branch s) = s)
  /\ (forall repoId commitId, snd (GetCommit repoId commitId s) = s)
  /\ (forall repoId leftRef rightRef, snd (Diff repoId leftRef rightRef s) = s).
Proof.
  assert (Hentry : forall repoId ref path typ,
            snd (ReadEntry repoId ref path typ s) = s).
  { intros. unfold ReadEntry, validated, RepoReadTransact.
    destruct (ValidateAll _); [done | apply readEntry_state]. }
  repeat split; intros.
  - apply Hentry.
  - unfold ReadEntryTree, validated. destruct (ValidateAll _); [done | apply Hentry].
  - unfold ReadEntryObject, validated. destruct (ValidateAll _); [done | apply Hentry].
  - unfold GetBranch, validated, RepoReadTransact.
    destruct (ValidateAll _); [done | apply ReadBranch_state].
  - unfold GetCommit, validated, RepoReadTransact.
    destruct (ValidateAll _); [done | apply ReadCommit_state].
  - unfold Diff, validated, RepoReadTransact.
    destruct (ValidateAll _); [done | apply doDiff_state].
Qed.
End ReadingWrites.

Section Committing.
Context `{!Faults, !Ident, !Path, !Merkle, !Validators}.
Context `{!BranchDeletionFaults, !Xerrors, !CommitIdValidator, !PathRoot}.

Lemma doCommitUpdates_run branchData committer message parents metadata ts s :
  let c := commit_of branchData committer message parents metadata ts in
  fault (CWriteCommit (Commit_Address c)) = None ->
  fault (CWriteBranch (Branch_Name branchData)) = None ->
  doCommitUpdates branchData committer message parents metadata ts s
  = (Ok c,
     set_branches
       (<[Branch_Name branchData :=
            mkBranch (Branch_Name branchData) (Commit_Address c) (Commit_Tree c)
              (Commit_Tree c)]> (st_branches s))
       (set_commits (<[Commit_Address c := c]> (st_commits s)) s)).
Proof.
  intros c Hfc Hfb. unfold doCommitUpdates.
  cbn [Commit_Tree Commit_Parents Commit_Committer Commit_Message
       Commit_Timestamp Commit_Metadata Branch_Name].
  rewrite (bind_Ok _ _ _ _ _ (WriteCommit_run _ _ _ Hfc)).
  by rewrite (bind_Ok _ _ _ _ _ (WriteBranch_run _ _ _ Hfb)).
Qed.

Lemma doCommitUpdates_inv branchData committer message parents metadata ts s c s' :
  doCommitUpdates branchData committer message parents metadata ts s = (Ok c, s') ->
  c = commit_of branchData committer message parents metadata ts
  /\ fault (CWriteCommit (Commit_Address c)) = None
  /\ fault (CWriteBranch (Branch_Name branchData)) = None.
Proof.
  unfold doCommitUpdates.
  cbn [Commit_Tree Commit_Parents Commit_Committer Commit_Message
       Commit_Timestamp Commit_Metadata Branch_Name].
  intros Hd. apply bind_inv in Hd as (u & s1 & Hc & Hd).
  apply WriteCommit_inv in Hc as [Hfc ->].
  apply bind_inv in Hd as (u' & s2 & Hb & Hd).
  apply WriteBranch_inv in Hb as [Hfb ->]. by injection Hd as <- _.
Qed.

(** What a [Commit] that succeeded did, for a branch whose record carries
    its name. *)
Lemma Commit_inv ts repoId branch message committer metadata s c s' :
  (forall br0, st_branches s !! branch = Some br0 -> Branch_Name br0 = branch) ->
  KVIndex_Commit ts repoId branch message committer metadata s = (Ok c, s') ->
  exists s1 br,
    partialCommit branch s = (Ok tt, s1)
    /\ ReadBranch branch s1 = (Ok br, s1)
    /\ Branch_Name br = branch
    /\ workspace_of branch s1 = ∅
    /\ fault (CListWorkspace branch) = None
    /\ c = commit_of br committer message [Branch_Commit br] metadata ts
    /\ s' = set_branches
              (<[branch := mkBranch branch (Commit_Address c) (Commit_Tree c)
                             (Commit_Tree c)]> (st_branches s1))
              (set_commits (<[Commit_Address c := c]> (st_commits s1)) s1).
Proof.
  intros Hname Hc. apply validated_Ok, RepoTransact_Ok in Hc.
  unfold Commit_tx in Hc.
  apply bind_inv in Hc as ([] & s1 & Hp & Hc).
  apply bind_inv in Hc as (br & s2 & Hb & Hc).
  pose proof Hb as Hb'. apply ReadBranch_Ok in Hb' as (Hfb & Hlook & ->).
  destruct (doCommitUpdates_inv _ _ _ _ _ _ _ _ _ Hc) as (Hceq & Hfc & Hfw).
  assert (Branch_Name br = branch /\ workspace_of branch s1 = ∅
          /\ fault (CListWorkspace branch) = None) as (Hn & Hws & Hfl).
  { destruct (partialCommit_Ok _ _ _ Hp)
      as [[Hl ->] | [(l & e & _ & _ & Hb'' & ->)
                    | (l & br0 & root & su & Hl & _ & Hb0 & _ & ->)]].
    - apply ListWorkspace_Ok in Hl as (Hfl & Hl & _).
      symmetry in Hl. apply fmap_nil_inv, map_to_list_empty_iff in Hl. auto.
    - congruence.
    - apply ReadBranch_folded in Hb as ->.
      apply ListWorkspace_Ok in Hl as (Hfl & _ & _).
      repeat split; [| done]. unfold folded.
      rewrite workspace_of_set_branches. apply workspace_of_cleared. }
  exists s1, br. repeat split; try done.
  rewrite (doCommitUpdates_run _ _ _ _ _ _ _) in Hc.
  - rewrite Hn in Hc. rewrite Hceq. by injection Hc as _ <-.
  - by rewrite <- Hceq.
  - done.
Qed.

(** X15: [Commit] does not ask for changes.  On valid arguments, for a
    branch whose workspace lists nothing and with the two writes
    succeeding, it returns a commit with the branch's workspace root as
    tree and the branch's commit as only parent, also when that tree is
    the tree of the parent. *)
Theorem Commit_without_changes (ts : Z) (repoId branch message committer : string)
    (metadata : gmap string string) (s : Store) (br : Branch) :
  ValidateAll [ValidateRepoId repoId; ValidateRef branch;
               ValidateCommitMessage message] = None ->
  ListWorkspace branch s = (Ok [], s) ->
  ReadBranch branch s = (Ok br, s) ->
  let c := commit_of br committer message [Branch_Commit br] metadata ts in
  fault (CWriteCommit (Commit_Address c)) = None ->
  fault (CWriteBranch (Branch_Name br)) = None ->
  exists s',
    KVIndex_Commit ts repoId branch message committer metadata s = (Ok c, s')
    /\ Commit_Tree c = Branch_WorkspaceRoot br
    /\ Commit_Parents c = [Branch_Commit br]
    /\ st_commits s' !! Commit_Address c = Some c.
Proof.
  intros Hv Hl Hb c Hfc Hfb. eexists. split.
  { unfold KVIndex_Commit, validated, RepoTransact. rewrite Hv. unfold Commit_tx.
    rewrite (bind_Ok _ _ _ _ _ (partialCommit_empty _ _ Hl)).
    rewrite (bind_Ok _ _ _ _ _ Hb).
    by rewrite (doCommitUpdates_run _ _ _ _ _ _ _ Hfc Hfb). }
  simpl. by rewrite lookup_insert_eq.
Qed.

(** X16: commits of a branch form a chain.  Of two [Commit]s in a row on
    the same branch that both succeed, the second has the address of the
    first as its only parent and the same tree. *)
Theorem Commit_chain (ts1 ts2 : Z) (repoId branch : string)
    (message1 committer1 message2 committer2 : string)
    (metadata1 metadata2 : gmap string string) (s s1 s2 : Store) (c1 c2 : Commit) :
  (forall br0, st_branches s !! branch = Some br0 -> Branch_Name br0 = branch) ->
  KVIndex_Commit ts1 repoId branch message1 committer1 metadata1 s = (Ok c1, s1) ->
  KVIndex_Commit ts2 repoId branch message2 committer2 metadata2 s1 = (Ok c2, s2) ->
  Commit_Parents c2 = [Commit_Address c1] /\ Commit_Tree c2 = Commit_Tree c1.
Proof.
  intros Hname H1' H2'.
  destruct (Commit_inv _ _ _ _ _ _ _ _ _ Hname H1')
    as (sa & bra & Hpa & Hba & Hna & Hwsa & Hfl & Hc1 & Hs1).
  assert (st_branches s1 !! branch
          = Some (mkBranch branch (Commit_Address c1) (Commit_Tree c1)
                    (Commit_Tree c1))) as Hrec.
  { rewrite Hs1. simpl. apply lookup_insert_eq. }
  assert (workspace_of branch s1 = ∅) as Hws1 by (by rewrite Hs1).
  destruct (Commit_inv _ _ _ _ _ _ _ _ _ ltac:(intros br0; rewrite Hrec; by intros [= <-])
              H2')
    as (sb & brb & Hpb & Hbb & Hnb & Hwsb & _ & Hc2 & Hs2).
  assert (sb = s1) as ->.
  { destruct (partialCommit_Ok _ _ _ Hpb)
      as [[_ ->] | [(l & e & _ & _ & _ & ->)
                   | (l & br0 & root & su & Hl & Hne & _ & _ & _)]]; [done | done |].
    apply ListWorkspace_Ok in Hl as (_ & Hl & _).
    rewrite Hws1, map_to_list_empty in Hl. done. }
  apply ReadBranch_Ok in Hbb as (_ & Hbb & _). rewrite Hrec in Hbb.
  injection Hbb as <-. by rewrite Hc2.
Qed.

(** X17: a commit is read back by its address.  After a [Commit] that
    succeeded, [GetCommit] of the returned address returns the commit,
    when the address passes [ValidateCommitID] and the read does not
    fail. *)
Theorem Commit_then_GetCommit (ts : Z) (repoId branch message committer : string)
    (metadata : gmap string string) (s s' : Store) (c : Commit) :
  KVIndex_Commit ts repoId branch message committer metadata s = (Ok c, s') ->
  ValidateCommitID (Commit_Address c) = None ->
  fault (CReadCommit (Commit_Address c)) = None ->
  GetCommit repoId (Commit_Address c) s' = (Ok c, s').
Proof.
  intros Hc Hvc Hf.
  pose proof Hc as Hv. unfold KVIndex_Commit, validated in Hv.
  destruct (ValidateAll _) eqn:Hvalid in Hv; [done |]. clear Hv.
  apply ValidateAll_cons in Hvalid as [Hrepo _].
  apply validated_Ok, RepoTransact_Ok in Hc. unfold Commit_tx in Hc.
  apply bind_inv in Hc as ([] & s1 & _ & Hc).
  apply bind_inv in Hc as (br & s2 & _ & Hc).
  destruct (doCommitUpdates_inv _ _ _ _ _ _ _ _ _ Hc) as (Hceq & Hfc & Hfw).
  rewrite (doCommitUpdates_run _ _ _ _ _ _ _) in Hc;
    [| by rewrite <- Hceq | done].
  injection Hc as <- <-.
  unfold GetCommit, validated, RepoReadTransact.
  assert (ValidateAll [ValidateRepoId repoId;
                       ValidateCommitID
                         (Commit_Address
                            (commit_of br committer message [Branch_Commit br]
                               metadata ts))] = None) as ->.
  { simpl in *. by rewrite Hrepo, Hvc. }
  apply ReadCommit_intro; [done |]. simpl. apply lookup_insert_eq.
Qed.

(** X18: a branch just committed is accepted as the destination of a
    merge: after a [Commit] that succeeded, the function of [Merge] goes
    on past the check of the destination. *)
Theorem Commit_then_Merge (ts : Z) (repoId branch message committer : string)
    (metadata : gmap string string) (s s' : Store) (c : Commit) :
  (forall br0, st_branches s !! branch = Some br0 -> Branch_Name br0 = branch) ->
  KVIndex_Commit ts repoId branch message committer metadata s = (Ok c, s') ->
  forall ts' source userId ops,
    Merge_tx ts' repoId source branch userId (mkEnv s' ops)
    = Merge_apply ts' repoId source branch userId
        (mkBranch branch (Commit_Address c) (Commit_Tree c) (Commit_Tree c))
        (mkEnv s' ops).
Proof.
  intros Hname Hc ts' source userId ops.
  destruct (Commit_inv _ _ _ _ _ _ _ _ _ Hname Hc)
    as (s1 & br & Hp & Hb & Hn & Hws & Hfl & Hceq & ->).
  apply ReadBranch_Ok in Hb as (Hfb & _ & _).
  apply Merge_accepts_clean; [| done | done | done].
  apply ReadBranch_intro; [done |]. simpl. apply lookup_insert_eq.
Qed.
End Committing.

Section Merging.
Context `{!Faults, !Ident, !Path, !Merkle, !Validators}.
Context `{!BranchDeletionFaults, !Xerrors, !CommitIdValidator, !PathRoot}.

Lemma Merge_entries_state sourceRoot ops s : snd (Merge_entries sourceRoot ops s) = s.
Proof.
  induction ops as [| dif rest IH]; [done |]. cbn [Merge_entries].
  unfold bind at 1. case_decide.
  - unfold readonly. destruct (merkle_GetEntry _ _ _ s); [| done].
    unfold bind. destruct (Merge_entries sourceRoot rest s) as [[ws|e] s1]; done.
  - unfold ret at 1. unfold bind.
    destruct (Merge_entries sourceRoot rest s) as [[ws|e] s1]; done.
Qed.

(** X19: the workspace entries [Merge] applies to the destination.  There
    is one per merge operation, in the same order and at the same path: a
    tombstone named by the last segment of the path for a removal, read
    without a look at the source tree, and otherwise the entry the tree of
    the source's workspace root holds at the path.  Operations that are
    all removals never fail this step, and nothing is written. *)
Theorem Merge_entries_spec (sourceRoot : string) (ops : Differences) (s : Store) :
  snd (Merge_entries sourceRoot ops s) = s
  /\ (forall ws, fst (Merge_entries sourceRoot ops s) = Ok ws ->
       Forall2 (entry_of_operation sourceRoot s) ops ws)
  /\ (Forall (fun d => Difference_Type d = DifferenceTypeRemoved) ops ->
       exists ws, fst (Merge_entries sourceRoot ops s) = Ok ws).
Proof.
  split; [apply Merge_entries_state |]. split.
  - induction ops as [| dif rest IH]; intros ws.
    { intros [= <-]. constructor. }
    cbn [Merge_entries]. unfold bind at 1. case_decide as Hrem.
    + unfold readonly. destruct (merkle_GetEntry _ _ _ s) as [e|e] eqn:He; [| done].
      unfold bind.
      pose proof (Merge_entries_state sourceRoot rest s) as Hs.
      destruct (Merge_entries sourceRoot rest s) as [[ws'|e'] s1]; [| done].
      simpl. intros [= <-]. constructor; [| by apply IH].
      split; [done |]. split; [done |]. intros _. simpl.
      rewrite bool_decide_eq_false_2 by done. split; [done |]. by exists e.
    + unfold ret at 1. unfold bind.
      destruct (Merge_entries sourceRoot rest s) as [[ws'|e'] s1]; [| done].
      simpl. intros [= <-]. constructor; [| by apply IH].
      split; [done |]. split; [| done]. intros _. simpl.
      by rewrite bool_decide_eq_true_2.
  - induction ops as [| dif rest IH]; intros Hall; [by eexists |].
    apply Forall_cons in Hall as [Hd Hrest]. destruct (IH Hrest) as [ws Hws].
    cbn [Merge_entries]. unfold bind at 1.
    rewrite decide_False by (intros Hn; by apply Hn).
    unfold ret at 1. unfold bind.
    destruct (Merge_entries sourceRoot rest s) as [[ws'|e'] s1]; [| done].
    by eexists.
Qed.

Lemma inTx_inv {V A} (m : Tx Store A) (env env' : Env V) r :
  inTx m env = (r, env') ->
  m (env_tx env) = (r, env_tx env') /\ env_var env' = env_var env.
Proof.
  unfold inTx. destruct (m (env_tx env)) as [r' s']. by intros [= <- <-].
Qed.

(** What a [Merge_prepare] that succeeded did. *)
Lemma Merge_prepare_inv repoId source destination db s ops dst src env1 :
  Merge_prepare repoId source destination db (mkEnv s ops) = (Ok (dst, src), env1) ->
  exists df ws root,
    doDiff repoId source destination true s = (Ok df, s)
    /\ existsb is_conflict df = false
    /\ env_var env1 = (ops ++ merge_operations_of df)%list
    /\ ReadBranch source s = (Ok src, s)
    /\ Merge_entries (Branch_WorkspaceRoot src) (ops ++ merge_operations_of df)%list s
       = (Ok ws, s)
    /\ merkle_Update (Branch_CommitRoot db) ws s = (Ok root, env_tx env1)
    /\ dst = mkBranch (Branch_Name db) (Branch_Commit db) root root.
Proof.
  unfold Merge_prepare. intros Hp.
  apply bind_inv in Hp as (df & e1 & Hdf & Hp).
  apply inTx_inv in Hdf as [Hdf Hv1]. cbn [env_tx env_var] in *.
  pose proof (doDiff_state repoId source destination true s) as Hds.
  rewrite Hdf in Hds. simpl in Hds.
  destruct e1 as [s1 v1]. simpl in *. subst s1 v1.
  unfold bind at 1, getVar at 1 in Hp. cbn [env_var] in Hp.
  rewrite Merge_scan in Hp. cbn [fst snd orb] in Hp.
  unfold bind at 1, setVar at 1 in Hp. cbn [env_tx] in Hp.
  destruct (existsb is_conflict df) eqn:Hconf; [done |].
  apply bind_inv in Hp as (src' & e2 & Hsrc & Hp).
  apply inTx_inv in Hsrc as [Hsrc Hv2]. cbn [env_tx env_var] in *.
  pose proof (ReadBranch_state source s) as Hss. rewrite Hsrc in Hss. simpl in Hss.
  destruct e2 as [s2 v2]. simpl in *. subst s2 v2.
  unfold bind at 1, getVar at 1 in Hp. cbn [env_var] in Hp.
  apply bind_inv in Hp as (ws & e3 & Hws & Hp).
  apply inTx_inv in Hws as [Hws Hv3]. cbn [env_tx env_var] in *.
  pose proof (Merge_entries_state (Branch_WorkspaceRoot src')
                (ops ++ merge_operations_of df)%list s) as Hes.
  rewrite Hws in Hes. simpl in Hes.
  destruct e3 as [s3 v3]. simpl in *. subst s3 v3.
  apply bind_inv in Hp as (root & e4 & Hup & Hp).
  unfold on_error in Hup.
  destruct (inTx (merkle_Update (Branch_CommitRoot db) ws) _) as [[root'|e'] e5]
    eqn:Hup'; [| done].
  injection Hup as -> ->.
  apply inTx_inv in Hup' as [Hup' Hv4]. cbn [env_tx env_var] in *.
  injection Hp as <- <- <-.
  exists df, ws, root. by rewrite Hv4.
Qed.

(** X20: the commit of a merge.  When [Merge] got as far as the new root
    and the writes of the commit and of the branch record succeed, it
    returns the merge operations without an error; the store then holds,
    at its hash, a commit by the user with the new root as tree, the
    commits of the destination and of the source, in that order, as
    parents and the message naming both branches; and the destination's
    record points at that commit with the new root as both roots. *)
Theorem Merge_commit (ts : Z) (repoId source destination userId : string)
    (s : Store) (destinationBranch dst src : Branch) (env1 : Env Differences) :
  ValidateAll [ValidateRepoId repoId; ValidateRef source; ValidateRef destination]
    = None ->
  ReadBranch destination s = (Ok destinationBranch, s) ->
  ListWorkspace destination s = (Ok [], s) ->
  Branch_CommitRoot destinationBranch = Branch_WorkspaceRoot destinationBranch ->
  Merge_prepare repoId source destination destinationBranch (mkEnv s [])
    = (Ok (dst, src), env1) ->
  let c :=
    commit_of dst userId ("Merge branch " ++ source ++ " into " ++ destination)
      [Branch_Commit destinationBranch; Branch_Commit src] ∅ ts in
  fault (CWriteCommit (Commit_Address c)) = None ->
  fault (CWriteBranch (Branch_Name destinationBranch)) = None ->
  exists df s',
    doDiff repoId source destination true s = (Ok df, s)
    /\ Merge ts repoId source destination userId s
       = ((merge_operations_of df, None), s')
    /\ st_commits s' !! Commit_Address c = Some c
    /\ Commit_Tree c = Branch_WorkspaceRoot dst
    /\ Commit_Parents c = [Branch_Commit destinationBranch; Branch_Commit src]
    /\ Commit_Committer c = userId
    /\ st_branches s' !! Branch_Name destinationBranch
       = Some (mkBranch (Branch_Name destinationBranch) (Commit_Address c)
                 (Commit_Tree c) (Commit_Tree c)).
Proof.
  intros Hv Hb Hl Hroots Hprep c Hfc Hfb.
  destruct (Merge_prepare_inv _ _ _ _ _ _ _ _ _ Hprep)
    as (df & ws & root & Hdf & _ & Hops & _ & _ & _ & ->).
  exists df. eexists. split; [done |]. split.
  - unfold Merge. rewrite Hv. unfold RepoTransact_capturing.
    rewrite (Merge_tx_checked _ _ _ _ _ _ _ _ _ Hb Hl).
    rewrite (proj2 (uncommitted_check destinationBranch [])) by done.
    unfold Merge_apply. rewrite (bind_Ok _ _ _ _ _ Hprep). cbn [fst snd Branch_Commit].
    unfold bind, discard, getVar, inTx.
    rewrite (doCommitUpdates_run _ _ _ _ _ _ _ Hfc Hfb).
    cbn [fst snd env_var env_tx]. by rewrite Hops.
  - simpl. by rewrite !lookup_insert_eq.
Qed.


(** X22: the errors of a diff.  Whatever error the resolution of the left
    or of the right ref fails with, also a storage error, [doDiff] reports
    [ErrBranchNotFound]; and it reports [ErrNoMergeBase] when the search
    for a common ancestor fails or finds none.  [Merge] likewise reports
    [ErrBranchNotFound] for any failure to read its destination. *)
Theorem diff_errors (repoId leftRef rightRef : string) (isMerge : bool) (s : Store) :
  (forall e, resolveRef leftRef s = (Fail e, s) ->
     doDiff repoId leftRef rightRef isMerge s = (Fail ErrBranchNotFound, s))
  /\ (forall l e, resolveRef leftRef s = (Ok l, s) ->
       resolveRef rightRef s = (Fail e, s) ->
       doDiff repoId leftRef rightRef isMerge s = (Fail ErrBranchNotFound, s))
  /\ (forall l r, resolveRef leftRef s = (Ok l, s) ->
       resolveRef rightRef s = (Ok r, s) ->
       (forall c, dag_FindLowestCommonAncestor
                    (Commit_Address (reference_commit l))
                    (Commit_Address (reference_commit r)) s <> Ok (Some c)) ->
       doDiff repoId leftRef rightRef isMerge s = (Fail ErrNoMergeBase, s))
  /\ (forall ts userId e,
       ValidateAll [ValidateRepoId repoId; ValidateRef leftRef; ValidateRef rightRef]
         = None ->
       ReadBranch rightRef s = (Fail e, s) ->
       Merge ts repoId leftRef rightRef userId s
       = (([], Some ErrBranchNotFound), s)).
Proof.
  repeat split.
  - intros e Hl. unfold doDiff.
    apply bind_Fail. by rewrite (on_error_Fail _ _ _ _ _ _ Hl).
  - intros l e Hl Hr. unfold doDiff.
    rewrite (bind_Ok _ _ _ _ _ (on_error_Ok _ _ _ _ _ _ Hl)). unfold ret at 1.
    apply bind_Fail. by rewrite (on_error_Fail _ _ _ _ _ _ Hr).
  - intros l r Hl Hr Hnone. unfold doDiff.
    rewrite (bind_Ok _ _ _ _ _ (on_error_Ok _ _ _ _ _ _ Hl)). unfold ret at 1.
    rewrite (bind_Ok _ _ _ _ _ (on_error_Ok _ _ _ _ _ _ Hr)). unfold ret at 1.
    unfold bind, on_error, readonly, ret, fail.
    destruct (dag_FindLowestCommonAncestor _ _ s) as [[c|]|e]; [| done | done].
    by destruct (Hnone c).
  - intros ts userId e Hv Hb. unfold Merge. rewrite Hv.
    unfold RepoTransact_capturing, Merge_tx.
    unfold bind at 1, on_error at 1. by rewrite (inTx_run _ _ _ _ _ Hb).
Qed.
End Merging.

Section LastSegment.

Lemma append_cons c a b : String c a ++ b = String c (a ++ b).
Proof. reflexivity. Qed.

Lemma append_empty_r a : a ++ "" = a.
Proof. induction a as [| c a IH]; [done |]. by rewrite append_cons, IH. Qed.

Lemma append_assoc a b c : (a ++ b) ++ c = a ++ (b ++ c).
Proof. induction a as [| x a IH]; [done |]. by rewrite !append_cons, IH. Qed.

Lemma no_slash_append a b :
  no_slash (a ++ b) = no_slash a && no_slash b.
Proof.
  induction a as [| c a IH]; [done |]. rewrite append_cons. simpl.
  by rewrite IH, andb_assoc.
Qed.

Lemma last_segment_from_no_slash cur s :
  no_slash cur = true -> no_slash (last_segment_from cur s) = true.
Proof.
  revert cur. induction s as [| c s IH]; intros cur Hcur; [done |].
  simpl. destruct (Ascii.eqb c "/") eqn:Hc; [by apply IH |].
  apply IH. rewrite no_slash_append, Hcur. simpl. by rewrite Hc.
Qed.

Lemma last_segment_from_whole cur s :
  no_slash s = true -> last_segment_from cur s = cur ++ s.
Proof.
  revert cur. induction s as [| c s IH]; intros cur Hs.
  { by rewrite append_empty_r. }
  simpl in *. apply andb_prop in Hs as [Hc Hs].
  apply negb_true_iff in Hc. rewrite Hc, IH by done.
  by rewrite append_assoc.
Qed.

Lemma last_segment_from_after_slash cur a b :
  last_segment_from cur (a ++ String "/" b) = last_segment_from "" b.
Proof.
  revert cur. induction a as [| c a IH]; intros cur; [done |].
  rewrite append_cons. simpl. by destruct (Ascii.eqb c "/"); rewrite IH.
Qed.

Lemma last_segment_from_suffix cur s :
  exists before, cur ++ s = before ++ last_segment_from cur s.
Proof.
  revert cur. induction s as [| c s IH]; intros cur.
  { exists "". apply append_empty_r. }
  simpl. destruct (Ascii.eqb c "/") eqn:Hc.
  - destruct (IH "") as [before Hb]. exists (cur ++ String c before).
    rewrite append_assoc, append_cons. simpl in Hb. by rewrite <- Hb.
  - destruct (IH (cur ++ String c "")) as [before Hb]. exists before.
    rewrite <- Hb. by rewrite append_assoc.
Qed.

(** X23: the name [Merge] gives the tombstone of a removed path,
    [p[len(p)-1]] of the path split at its slashes.  It has no slash, it
    is the end of the path, it is the whole path when the path has no
    slash, and it is what follows the last slash otherwise (the empty name
    for a path that ends in a slash). *)
Theorem last_segment_spec (path : string) :
  no_slash (last_segment path) = true
  /\ (exists before, path = before ++ last_segment path)
  /\ (no_slash path = true -> last_segment path = path)
  /\ (forall dir name, path = dir ++ String "/" name -> no_slash name = true ->
       last_segment path = name).
Proof.
  unfold last_segment. split; [by apply last_segment_from_no_slash |].
  split; [apply (last_segment_from_suffix "") |].
  split; [apply (last_segment_from_whole "") |].
  intros dir name -> Hname.
  rewrite last_segment_from_after_slash. by apply (last_segment_from_whole "").
Qed.
End LastSegment.

Section Repositories.
Context `{!Faults, !Ident, !Path, !Merkle, !Validators}.
Context `{!BranchDeletionFaults, !Xerrors, !CommitIdValidator, !PathRoot}.

(** X24: [CreateRepo] on a valid id.  When the store reads a repository
    record it fails with [ErrRepoExists] and changes nothing.  When the
    store has none and the three writes succeed, it writes the record, an
    initial commit without parents whose tree is the empty tree, and the
    default branch pointing at that commit with the empty tree as both
    roots; no workspace entry is touched; and a second [CreateRepo] then
    fails with [ErrRepoExists]. *)
Theorem CreateRepo_spec (creationDate : Z) (repoId bucketName defaultBranch : string)
    (s : Store) :
  ValidateAll [ValidateRepoId repoId] = None ->
  (forall repo, ReadRepo s = (Ok repo, s) ->
     CreateRepo creationDate repoId bucketName defaultBranch s
     = (Fail ErrRepoExists, s))
  /\ (let c :=
        mkCommit (ident_Hash_Commit (mkCommit "" ident_Empty [] "" "" creationDate ∅))
          ident_Empty [] "" "" creationDate ∅ in
      fault CReadRepo = None -> st_repo s = None ->
      fault CWriteRepo = None ->
      fault (CWriteCommit (Commit_Address c)) = None ->
      fault (CWriteBranch defaultBranch) = None ->
      exists s',
        CreateRepo creationDate repoId bucketName defaultBranch s = (Ok tt, s')
        /\ st_repo s'
           = Some (mkRepo repoId bucketName creationDate defaultBranch
                     DefaultPartialCommitRatio)
        /\ st_commits s' !! Commit_Address c = Some c
        /\ st_branches s' !! defaultBranch
           = Some (mkBranch defaultBranch (Commit_Address c) ident_Empty ident_Empty)
        /\ st_workspace s' = st_workspace s
        /\ forall creationDate' bucketName' defaultBranch',
             CreateRepo creationDate' repoId bucketName' defaultBranch' s'
             = (Fail ErrRepoExists, s')).
Proof.
  intros Hv.
  assert (Hexists : forall s0 repo cd bn db, ReadRepo s0 = (Ok repo, s0) ->
            CreateRepo cd repoId bn db s0 = (Fail ErrRepoExists, s0)).
  { intros s0 repo cd bn db Hr. unfold CreateRepo, validated, RepoTransact.
    rewrite Hv. by rewrite (on_error_Ok _ _ _ _ _ _ Hr). }
  split; [intros repo Hr; by eapply Hexists |].
  intros c Hfr Hnone Hfw Hfc Hfb. eexists. split.
  { unfold CreateRepo, validated, RepoTransact. rewrite Hv.
    unfold on_error, ReadRepo, call, lookup_or_not_found. rewrite Hfr, Hnone.
    cbn [is_ErrNotFound negb].
    unfold bind, WriteRepo, WriteCommit, WriteBranch, call.
    cbn [Commit_Tree Commit_Parents Commit_Committer Commit_Message
         Commit_Timestamp Commit_Metadata Repo_DefaultBranch].
    fold c. change (ident_Hash_Commit (mkCommit "" ident_Empty [] "" "" creationDate ∅))
      with (Commit_Address c).
    rewrite Hfw, Hfc, Hfb. reflexivity. }
  simpl. split; [done |]. split; [by rewrite lookup_insert_eq |].
  split; [by rewrite lookup_insert_eq |]. split; [done |].
  intros. eapply Hexists. by apply ReadRepo_intro.
Qed.

(** X25: [DiffWorkspace] writes.  A [DiffWorkspace] that succeeded ran a
    partial commit, whose store it leaves, and returns the differences of
    the branch's workspace root and commit root with the commit root as
    base; the workspace of the branch is empty afterwards, whatever was
    staged before. *)
Theorem DiffWorkspace_spec (repoId branch : string) (s s' : Store) (df : Differences) :
  DiffWorkspace repoId branch s = (Ok df, s') ->
  partialCommit branch s = (Ok tt, s')
  /\ workspace_of branch s' = ∅
  /\ exists b,
       ReadBranch branch s' = (Ok b, s')
       /\ merkle_Diff (Branch_WorkspaceRoot b) (Branch_CommitRoot b)
            (Branch_CommitRoot b) s' = Ok df.
Proof.
  intros Hd. apply validated_Ok, RepoTransact_Ok in Hd. unfold DiffWorkspace_tx in Hd.
  apply bind_inv in Hd as ([] & s1 & Hp & Hd).
  apply bind_inv in Hd as (b & s2 & Hb & Hd).
  pose proof Hb as Hb'. apply ReadBranch_Ok in Hb' as (_ & _ & ->).
  unfold readonly in Hd.
  destruct (merkle_Diff _ _ _ s1) as [df'|e] eqn:Hdiff; [| done].
  injection Hd as -> ->.
  split; [done |]. split; [| by exists b].
  destruct (partialCommit_Ok _ _ _ Hp)
    as [[Hl ->] | [(l & e & _ & _ & Hb'' & ->)
                  | (l & br0 & root & su & Hl & _ & Hb0 & _ & ->)]].
  - apply ListWorkspace_Ok in Hl as (_ & Hl & _).
    symmetry in Hl. by apply fmap_nil_inv, map_to_list_empty_iff in Hl.
  - congruence.
  - unfold folded. rewrite workspace_of_set_branches. apply workspace_of_cleared.
Qed.
End Repositories.

Section Reverting.
Context `{!Faults, !Ident, !Path, !Merkle, !Validators}.
Context `{!BranchDeletionFaults, !Xerrors, !CommitIdValidator, !PathRoot}.





(** X27: reverting the root.  With valid arguments, [RevertPath] and
    [RevertObject] on a root path are [ResetBranch]: the whole workspace
    of the branch is dropped, whichever of the two was called. *)
Theorem RevertPath_root (repoId branch path : string) (s : Store) :
  path_IsRoot path = true ->
  ValidatePath path = None ->
  RevertPath repoId branch path s = ResetBranch repoId branch s
  /\ RevertObject repoId branch path s = ResetBranch repoId branch s.
Proof.
  intros Hroot Hpath.
  assert (forall typ, validated [ValidateRepoId repoId; ValidateRef branch;
                                 ValidatePath path]
                        (revertPath repoId branch path typ) s
                      = ResetBranch repoId branch s) as Hboth.
  { intros typ. unfold validated, revertPath, revertPath_tx. rewrite Hroot.
    unfold ResetBranch, validated. simpl.
    destruct (ValidateRepoId repoId); [done |].
    destruct (ValidateRef branch); [done |]. rewrite Hpath.
    unfold RepoTransact.
    by destruct (ResetBranch_tx branch s) as [[?|?] ?]. }
  split; apply Hboth.
Qed.

Lemma partialCommit_keeps_commit branch s s1 b0 b1 :
  partialCommit branch s = (Ok tt, s1) ->
  ReadBranch branch s = (Ok b0, s) ->
  ReadBranch branch s1 = (Ok b1, s1) ->
  Branch_Commit b1 = Branch_Commit b0
  /\ Branch_CommitRoot b1 = Branch_CommitRoot b0.
Proof.
  intros Hp Hb0 Hb1.
  destruct (partialCommit_Ok _ _ _ Hp)
    as [[_ ->] | [(l & e & _ & _ & Hb & ->)
                  | (l & br & root & su & _ & _ & Hb & _ & ->)]].
  - split; congruence.
  - congruence.
  - apply ReadBranch_folded in Hb1 as ->. simpl. split; congruence.
Qed.

(** X28: reverting a path below the root.  A [revertPath] that succeeded
    folded the pending writes first, and then updated the workspace tree
    with one entry for the path: the entry the commit tree has there, or,
    when the commit tree has none, a tombstone that carries the entry of
    the workspace tree.  The branch keeps its commit and its commit root;
    only its workspace root changes, to the root of the update. *)
Theorem revertPath_spec (repoId branch path : string) (typ : Entry_Type)
    (s s' : Store) (b0 : Branch) :
  path_IsRoot path = false ->
  ReadBranch branch s = (Ok b0, s) ->
  revertPath repoId branch path typ s = (Ok tt, s') ->
  exists s1 b1 entry tomb root s2,
    partialCommit branch s = (Ok tt, s1)
    /\ ReadBranch branch s1 = (Ok b1, s1)
    /\ (if tomb : bool
        then (exists err,
                merkle_GetEntry (Branch_CommitRoot b0) path typ s1 = Fail err
                /\ is_ErrNotFound err = true)
             /\ merkle_GetEntry (Branch_WorkspaceRoot b1) path typ s1 = Ok entry
        else merkle_GetEntry (Branch_CommitRoot b0) path typ s1 = Ok entry)
    /\ merkle_Update (Branch_WorkspaceRoot b1)
         [mkWorkspaceEntry path (Some entry) tomb] s1 = (Ok root, s2)
    /\ s' = set_branches
              (<[branch := mkBranch branch (Branch_Commit b0) (Branch_CommitRoot b0)
                             root]> (st_branches s2)) s2
    /\ ReadBranch branch s'
       = (Ok (mkBranch branch (Branch_Commit b0) (Branch_CommitRoot b0) root), s').
Proof.
  intros Hroot Hb0 Hr. unfold revertPath in Hr. apply RepoTransact_Ok in Hr.
  unfold revertPath_tx in Hr. rewrite Hroot in Hr.
  apply bind_inv in Hr as ([] & s1 & Hp & Hr).
  apply bind_inv in Hr as (b1 & s1' & Hb1 & Hr).
  pose proof Hb1 as Hb1'. apply ReadBranch_Ok in Hb1' as (Hf & _ & ->).
  destruct (partialCommit_keeps_commit _ _ _ _ _ Hp Hb0 Hb1) as [Hc Hcr].
  cbv zeta in Hr. rewrite Hc, Hcr in Hr.
  apply bind_inv in Hr as (w & s1' & Hw & Hr).
  apply bind_inv in Hr as (root & s2 & Hu & Hr).
  apply WriteBranch_inv in Hr as [_ ->].
  assert (s1' = s1 /\ exists entry tomb,
            w = mkWorkspaceEntry path (Some entry) tomb
            /\ if tomb : bool
               then (exists err,
                       merkle_GetEntry (Branch_CommitRoot b0) path typ s1 = Fail err
                       /\ is_ErrNotFound err = true)
                    /\ merkle_GetEntry (Branch_WorkspaceRoot b1) path typ s1 = Ok entry
               else merkle_GetEntry (Branch_CommitRoot b0) path typ s1 = Ok entry)
    as (-> & entry & tomb & -> & Hcase).
  { revert Hw. unfold on_error, readonly, bind, ret, fail.
    destruct (merkle_GetEntry (Branch_CommitRoot b0) path typ s1) as [ce|err] eqn:Hce.
    - intros [= <- <-]. split; [done |]. by exists ce, false.
    - destruct (is_ErrNotFound err) eqn:Herr; [| done].
      destruct (merkle_GetEntry (Branch_WorkspaceRoot b1) path typ s1)
        as [pe|?] eqn:Hpe; [| done].
      intros [= <- <-]. split; [done |]. exists pe, true.
      split; [done |]. split; [by exists err | done]. }
  exists s1, b1, entry, tomb, root, s2.
  repeat (split; [done |]).
  apply ReadBranch_intro; [done |]. simpl. by rewrite lookup_insert_eq.
Qed.

(** X29: reverting a path no tree has.  When neither the commit tree nor
    the workspace tree of the branch has an entry at the path,
    [revertPath] fails with the error of the workspace tree, and the
    writes the partial commit had folded are undone with it. *)
Theorem revertPath_unknown_path (repoId branch path : string) (typ : Entry_Type)
    (s s1 : Store) (b1 : Branch) (err e : error) :
  path_IsRoot path = false ->
  partialCommit branch s = (Ok tt, s1) ->
  ReadBranch branch s1 = (Ok b1, s1) ->
  merkle_GetEntry (Branch_CommitRoot b1) path typ s1 = Fail err ->
  is_ErrNotFound err = true ->
  merkle_GetEntry (Branch_WorkspaceRoot b1) path typ s1 = Fail e ->
  revertPath repoId branch path typ s = (Fail e, s).
Proof.
  intros Hroot Hp Hb1 Hce Herr Hpe.
  unfold revertPath, RepoTransact, revertPath_tx. rewrite Hroot.
  unfold bind at 1. rewrite Hp. unfold bind at 1. rewrite Hb1. cbv zeta.
  unfold bind at 1, on_error, readonly. rewrite Hce, Herr.
  unfold bind at 1. by rewrite Hpe.
Qed.
End Reverting.

(** ** The further properties on the sample repositories *)

Section RestOnSamples.
#[local] Existing Instances no_faults toy_Ident toy_Path toy_Merkle accept_all
  branch_deletion_works toy_Xerrors accept_commit_ids toy_PathRoot.
Import Sample.

Lemma ResetBranch_spec_witness :
  exists s',
    ResetBranch "r" "main" staged = (Ok tt, s')
    /\ st_branches s' !! "main" = Some main1
    /\ workspace_of "main" s' = ∅.
Proof.
  pose proof (ResetBranch_spec "r" "main" staged main1) as H.
  destruct (H ltac:(reflexivity) ltac:(reflexivity) ltac:(vm_compute; reflexivity)
              ltac:(reflexivity)) as (s' & Hrun & Hb & Hw & _).
  exists s'. split; [exact Hrun |]. split; [exact Hb | exact Hw].
Defined.

Lemma ResetBranch_missing_branch_witness :
  ResetBranch "r" "ghost" orphaned = (Fail ErrNotFound, orphaned)
  /\ fst (ResetBranch_tx "ghost" orphaned) = Fail ErrNotFound
  /\ workspace_of "ghost" (snd (ResetBranch_tx "ghost" orphaned)) = ∅.
Proof.
  apply (ResetBranch_missing_branch "r" "ghost" orphaned ErrNotFound).
  - reflexivity.
  - reflexivity.
  - vm_compute. reflexivity.
Defined.

Lemma ResetBranch_then_Merge_witness :
  exists b,
    ReadBranch "main" (snd (ResetBranch "r" "main" staged))
    = (Ok b, snd (ResetBranch "r" "main" staged))
    /\ Merge_tx 108 "r" "dev" "main" "u"
         (mkEnv (snd (ResetBranch "r" "main" staged)) [])
       = Merge_apply 108 "r" "dev" "main" "u" b
           (mkEnv (snd (ResetBranch "r" "main" staged)) []).
Proof.
  pose proof (ResetBranch_then_Merge "r" "main" staged
                (snd (ResetBranch "r" "main" staged))) as H.
  destruct (H ltac:(vm_compute; reflexivity) ltac:(reflexivity)) as (b & Hb & Hm).
  exists b. split; [exact Hb | apply Hm].
Defined.

Lemma CreateBranch_exists_witness :
  CreateBranch "r" "main" "main" committed = (Fail ErrBranchAlreadyExists, committed).
Proof.
  apply (CreateBranch_exists "r" "main" "main" committed main1).
  - reflexivity.
  - vm_compute. reflexivity.
Defined.

Lemma CreateBranch_spec_witness :
  exists s',
    CreateBranch "r" "dev" "main" committed
    = (Ok (mkBranch "dev" (Commit_Address commit1) (Commit_Tree commit1)
             (Commit_Tree commit1)), s')
    /\ GetBranch "r" "dev" s'
       = (Ok (mkBranch "dev" (Commit_Address commit1) (Commit_Tree commit1)
                (Commit_Tree commit1)), s')
    /\ s' = branched.
Proof.
  pose proof (CreateBranch_spec "r" "dev" "main" committed
                (mkreference commit1 (Some main1) true)) as H.
  destruct (H ltac:(reflexivity) ltac:(reflexivity) ltac:(vm_compute; reflexivity)
              ltac:(vm_compute; reflexivity) ltac:(reflexivity))
    as (s' & Hrun & Hget & -> & _).
  eexists. split; [exact Hrun |]. split; [exact Hget |].
  vm_compute. reflexivity.
Defined.

Lemma CreateBranch_inherits_workspace_witness :
  Merge 108 "r" "main" "ghost" "u" (snd (CreateBranch "r" "ghost" "main" orphaned))
  = (([], Some ErrDestinationNotCommitted),
     snd (CreateBranch "r" "ghost" "main" orphaned)).
Proof.
  pose proof (CreateBranch_inherits_workspace "r" "ghost" "main" orphaned
                (snd (CreateBranch "r" "ghost" "main" orphaned))
                (mkBranch "ghost" "#c.@#empty" "#empty" "#empty")) as H.
  apply H.
  - vm_compute. reflexivity.
  - reflexivity.
  - reflexivity.
  - intros Hempty. vm_compute in Hempty. discriminate Hempty.
  - reflexivity.
Defined.

Lemma DeleteBranch_spec_witness :
  (exists s',
     DeleteBranch "r" "dev" branched = (Ok tt, s')
     /\ ReadBranch "dev" s' = (Fail ErrNotFound, s')
     /\ st_branches s' !! "main" = st_branches branched !! "main")
  /\ DeleteBranch "r" "ghost" committed = (Fail ErrNotFound, committed).
Proof.
  pose proof (DeleteBranch_spec "r" "dev" branched) as Hdev.
  pose proof (DeleteBranch_spec "r" "ghost" committed) as Hghost.
  split.
  - destruct (proj1 (Hdev ltac:(reflexivity))
                (mkBranch "dev" (Commit_Address commit1) (Commit_Tree commit1)
                   (Commit_Tree commit1))
                ltac:(vm_compute; reflexivity) ltac:(reflexivity) ltac:(reflexivity))
      as (s' & Hrun & Hread & _ & _ & Hother & _).
    exists s'. split; [exact Hrun |]. split; [exact Hread |].
    apply (Hother "main"). discriminate.
  - apply (proj2 (Hghost ltac:(reflexivity)) ErrNotFound).
    vm_compute. reflexivity.
Defined.

Lemma CreateBranch_then_DeleteBranch_witness :
  DeleteBranch "r" "dev" (snd (CreateBranch "r" "dev" "main" committed))
  = (Ok tt, committed).
Proof.
  apply (CreateBranch_then_DeleteBranch "r" "dev" "main" committed
           (snd (CreateBranch "r" "dev" "main" committed))
           (mkBranch "dev" (Commit_Address commit1) (Commit_Tree commit1)
              (Commit_Tree commit1))).
  - vm_compute. reflexivity.
  - reflexivity.
  - vm_compute. reflexivity.
  - reflexivity.
  - reflexivity.
Defined.

Lemma RevertCommit_spec_witness :
  (exists s',
     RevertCommit "r" "main" "#c.@#empty" staged = (Ok tt, s')
     /\ st_branches s' !! "main" = Some main0
     /\ workspace_of "main" s' = ∅)
  /\ RevertCommit "r" "main" (Commit_Address commit1) committed
     = ResetBranch "r" "main" committed
  /\ RevertCommit "r" "main" "#c.nope" committed = (Fail ErrNotFound, committed).
Proof.
  pose proof (RevertCommit_spec "r" "main" "#c.@#empty" staged) as Hfirst.
  pose proof (RevertCommit_spec "r" "main" (Commit_Address commit1) committed) as Hsame.
  pose proof (RevertCommit_spec "r" "main" "#c.nope" committed) as Hnope.
  split; [| split].
  - destruct (proj1 (Hfirst ltac:(reflexivity) ltac:(reflexivity))
                (mkCommit "#c.@#empty" "#empty" [] "" "" 100 ∅) main1
                ltac:(vm_compute; reflexivity) ltac:(vm_compute; reflexivity)
                ltac:(reflexivity))
      as (s' & Hrun & Hb & Hw & _).
    exists s'. split; [exact Hrun |]. split; [exact Hb | exact Hw].
  - destruct (proj1 (Hsame ltac:(reflexivity) ltac:(reflexivity)) commit1 main1
                ltac:(vm_compute; reflexivity) ltac:(vm_compute; reflexivity)
                ltac:(reflexivity))
      as (s' & _ & _ & _ & _ & Hreset).
    apply Hreset; reflexivity.
  - apply (proj2 (Hnope ltac:(reflexivity) ltac:(reflexivity)) ErrNotFound).
    vm_compute. reflexivity.
Defined.

Lemma WriteObject_then_ReadObject_witness :
  ReadObject "r" "main" "c.txt"
    (snd (WriteObject 1 110 "r" "main" "c.txt" obj3 committed))
  = (Ok obj3, snd (WriteObject 1 110 "r" "main" "c.txt" obj3 committed)).
Proof.
  pose proof (WriteObject_then_ReadObject 1 110 "r" "main" "c.txt" obj3 committed
                (snd (WriteObject 1 110 "r" "main" "c.txt" obj3 committed)) repo0
                (mkreference commit1 (Some main1) true)) as H.
  apply H.
  - vm_compute. reflexivity.
  - vm_compute. reflexivity.
  - vm_compute. discriminate.
  - vm_compute. reflexivity.
  - reflexivity.
  - reflexivity.
  - reflexivity.
  - reflexivity.
Defined.

Lemma WriteEntry_then_ReadEntry_witness :
  let entry := Some (mkEntry "c.txt" "#o.z" Entry_OBJECT 109 5 "z") in
  let s' := snd (WriteEntry 1 "r" "main" "c.txt" entry committed) in
  (forall typ, ReadEntry "r" "main" "c.txt" typ s' = (Ok entry, s'))
  /\ ReadEntryTree "r" "main" "c.txt" s' = (Ok entry, s')
  /\ ReadEntryObject "r" "main" "c.txt" s' = (Ok entry, s').
Proof.
  pose proof (WriteEntry_then_ReadEntry 1 "r" "main" "c.txt"
                (Some (mkEntry "c.txt" "#o.z" Entry_OBJECT 109 5 "z")) committed
                (snd (WriteEntry 1 "r" "main" "c.txt"
                        (Some (mkEntry "c.txt" "#o.z" Entry_OBJECT 109 5 "z"))
                        committed))
                repo0 (mkreference commit1 (Some main1) true)) as H.
  apply H.
  - vm_compute. reflexivity.
  - vm_compute. reflexivity.
  - vm_compute. discriminate.
  - vm_compute. reflexivity.
  - reflexivity.
  - reflexivity.
  - reflexivity.
Defined.

Lemma DeleteObject_then_reads_witness :
  let s' := snd (DeleteObject 1 114 "r" "main" "a/b.txt" committed) in
  ReadObject "r" "main" "a/b.txt" s' = (Fail ErrNotFound, s')
  /\ forall typ, ReadEntry "r" "main" "a/b.txt" typ s' = (Fail ErrNotFound, s').
Proof.
  pose proof (DeleteObject_then_reads 1 114 "r" "main" "a/b.txt" committed
                (snd (DeleteObject 1 114 "r" "main" "a/b.txt" committed)) repo0 main1
                tree_ab (mkreference commit1 (Some main1) true)) as H.
  apply H.
  - vm_compute. reflexivity.
  - vm_compute. reflexivity.
  - vm_compute. discriminate.
  - vm_compute. reflexivity.
  - vm_compute. reflexivity.
  - vm_compute. reflexivity.
  - reflexivity.
  - reflexivity.
  - reflexivity.
Defined.

Lemma Commit_without_changes_witness :
  let c := commit_of main1 "u" "again" [Branch_Commit main1] ∅ 120 in
  exists s',
    KVIndex_Commit 120 "r" "main" "again" "u" ∅ committed = (Ok c, s')
    /\ Commit_Tree c = Commit_Tree commit1
    /\ Commit_Parents c = [Commit_Address commit1]
    /\ st_commits s' !! Commit_Address c = Some c.
Proof.
  pose proof (Commit_without_changes 120 "r" "main" "again" "u" ∅ committed main1)
    as H.
  apply H.
  - reflexivity.
  - vm_compute. reflexivity.
  - vm_compute. reflexivity.
  - reflexivity.
  - reflexivity.
Defined.

Lemma Commit_chain_witness :
  let c2 :=
    mkCommit "#c.m5@#t.a/b.txt=#o.x,c.txt=#o.z" "#t.a/b.txt=#o.x,c.txt=#o.z"
      ["#c.m4@#t.a/b.txt=#o.x,c.txt=#o.z"] "v" "m5" 116 ∅ in
  Commit_Parents c2 = [Commit_Address commit4]
  /\ Commit_Tree c2 = Commit_Tree commit4.
Proof.
  apply (Commit_chain 111 116 "r" "main" "m4" "u" "m5" "v" ∅ ∅ staged
           staged_committed
           (snd (KVIndex_Commit 116 "r" "main" "m5" "v" ∅ staged_committed))
           commit4).
  - intros br0 Hbr0. vm_compute in Hbr0. by injection Hbr0 as <-.
  - vm_compute. reflexivity.
  - vm_compute. reflexivity.
Defined.

Lemma Commit_then_GetCommit_witness :
  GetCommit "r" (Commit_Address commit4) staged_committed
  = (Ok commit4, staged_committed).
Proof.
  apply (Commit_then_GetCommit 111 "r" "main" "m4" "u" ∅ staged staged_committed
           commit4).
  - vm_compute. reflexivity.
  - reflexivity.
  - reflexivity.
Defined.

Lemma Commit_then_Merge_witness :
  Merge_tx 117 "r" "dev" "main" "u" (mkEnv staged_committed [])
  = Merge_apply 117 "r" "dev" "main" "u"
      (mkBranch "main" (Commit_Address commit4) (Commit_Tree commit4)
         (Commit_Tree commit4))
      (mkEnv staged_committed []).
Proof.
  apply (Commit_then_Merge 111 "r" "main" "m4" "u" ∅ staged staged_committed commit4).
  - intros br0 Hbr0. vm_compute in Hbr0. by injection Hbr0 as <-.
  - vm_compute. reflexivity.
Defined.

Lemma Merge_entries_spec_witness :
  let removed :=
    mkDifference DifferenceTypeRemoved DifferenceDirectionLeft "a/b.txt"
      Entry_OBJECT in
  (exists ws, fst (Merge_entries "#t.a/b.txt=#o.y" [removed] diverged) = Ok ws)
  /\ Forall2 (entry_of_operation "#t.a/b.txt=#o.y" diverged) [change_ab]
       [mkWorkspaceEntry "a/b.txt"
          (Some (mkEntry "a/b.txt" "#o.y" Entry_OBJECT 103 4 "y")) false].
Proof.
  split.
  - apply (Merge_entries_spec "#t.a/b.txt=#o.y"
             [mkDifference DifferenceTypeRemoved DifferenceDirectionLeft "a/b.txt"
                Entry_OBJECT] diverged).
    repeat constructor.
  - apply (Merge_entries_spec "#t.a/b.txt=#o.y" [change_ab] diverged).
    vm_compute. reflexivity.
Defined.

Lemma Merge_commit_witness :
  let c :=
    commit_of (mkBranch "main" "#c.m1@#t.a/b.txt=#o.x" "#t.a/b.txt=#o.y"
                 "#t.a/b.txt=#o.y")
      "u" "Merge branch dev into main" [Branch_Commit main1; Branch_Commit dev2] ∅
      108 in
  exists s',
    Merge 108 "r" "dev" "main" "u" diverged = (([change_ab], None), s')
    /\ st_commits s' !! Commit_Address c = Some c
    /\ Commit_Parents c = [Commit_Address commit1; Branch_Commit dev2]
    /\ st_branches s' !! "main"
       = Some (mkBranch "main" (Commit_Address c) "#t.a/b.txt=#o.y"
                 "#t.a/b.txt=#o.y").
Proof.
  pose proof (Merge_commit 108 "r" "dev" "main" "u" diverged main1
                (mkBranch "main" "#c.m1@#t.a/b.txt=#o.x" "#t.a/b.txt=#o.y"
                   "#t.a/b.txt=#o.y")
                dev2
                (snd (Merge_prepare "r" "dev" "main" main1 (mkEnv diverged []))))
    as H.
  destruct (H ltac:(reflexivity) ltac:(vm_compute; reflexivity)
              ltac:(vm_compute; reflexivity) ltac:(reflexivity)
              ltac:(vm_compute; reflexivity) ltac:(reflexivity) ltac:(reflexivity))
    as (df & s' & Hdf & Hrun & Hc & _ & Hparents & _ & Hb).
  assert (df = [change_ab]) as ->.
  { vm_compute in Hdf. by injection Hdf as <-. }
  exists s'. split; [exact Hrun |]. split; [exact Hc |].
  split; [exact Hparents | exact Hb].
Defined.


Lemma diff_errors_witness :
  doDiff "r" "nope" "main" false diverged = (Fail ErrBranchNotFound, diverged)
  /\ doDiff "r" "main" "nope" false diverged = (Fail ErrBranchNotFound, diverged)
  /\ Merge 108 "r" "dev" "nope" "u" diverged
     = (([], Some ErrBranchNotFound), diverged).
Proof.
  split; [| split].
  - apply (proj1 (diff_errors "r" "nope" "main" false diverged) ErrNotFound).
    vm_compute. reflexivity.
  - apply (proj1 (proj2 (diff_errors "r" "main" "nope" false diverged))
             (mkreference commit1 (Some main1) true) ErrNotFound).
    + vm_compute. reflexivity.
    + vm_compute. reflexivity.
  - apply (proj2 (proj2 (proj2 (diff_errors "r" "dev" "nope" false diverged)))
             108%Z "u" ErrNotFound).
    + reflexivity.
    + vm_compute. reflexivity.
Defined.

Lemma last_segment_spec_witness :
  last_segment "c.txt" = "c.txt" /\ last_segment "a/b/c.txt" = "c.txt".
Proof.
  split.
  - apply (last_segment_spec "c.txt"). reflexivity.
  - apply (proj2 (proj2 (proj2 (last_segment_spec "a/b/c.txt"))) "a/b" "c.txt");
      reflexivity.
Defined.

Lemma CreateRepo_spec_witness :
  CreateRepo 200 "r" "other" "trunk" created = (Fail ErrRepoExists, created)
  /\ exists s',
       CreateRepo 100 "r" "bucket" "main" empty_store = (Ok tt, s')
       /\ st_repo s' = Some repo0
       /\ st_branches s' !! "main" = Some main0.
Proof.
  pose proof (CreateRepo_spec 200 "r" "other" "trunk" created) as Hexists.
  pose proof (CreateRepo_spec 100 "r" "bucket" "main" empty_store) as Hnew.
  split.
  - apply (proj1 (Hexists ltac:(reflexivity)) repo0). vm_compute. reflexivity.
  - destruct (proj2 (Hnew ltac:(reflexivity)) ltac:(reflexivity) ltac:(reflexivity)
                ltac:(reflexivity) ltac:(reflexivity) ltac:(reflexivity))
      as (s' & Hrun & Hrepo & _ & Hb & _).
    exists s'. split; [exact Hrun |]. split; [exact Hrepo | exact Hb].
Defined.

Lemma DiffWorkspace_spec_witness :
  let s' := snd (DiffWorkspace "r" "main" staged) in
  partialCommit "main" staged = (Ok tt, s')
  /\ workspace_of "main" s' = ∅
  /\ exists b,
       ReadBranch "main" s' = (Ok b, s')
       /\ merkle_Diff (Branch_WorkspaceRoot b) (Branch_CommitRoot b)
            (Branch_CommitRoot b) s'
          = Ok [mkDifference DifferenceTypeAdded DifferenceDirectionLeft "c.txt"
                  Entry_OBJECT].
Proof.
  apply (DiffWorkspace_spec "r" "main" staged (snd (DiffWorkspace "r" "main" staged))
           [mkDifference DifferenceTypeAdded DifferenceDirectionLeft "c.txt"
              Entry_OBJECT]).
  vm_compute. reflexivity.
Defined.


Lemma RevertPath_root_witness :
  RevertPath "r" "main" "" staged = ResetBranch "r" "main" staged
  /\ RevertObject "r" "main" "" staged = ResetBranch "r" "main" staged.
Proof.
  apply (RevertPath_root "r" "main" "" staged); reflexivity.
Defined.

Lemma revertPath_spec_witness :
  exists root,
    ReadBranch "main" (snd (revertPath "r" "main" "a/b.txt" Entry_OBJECT restaged))
    = (Ok (mkBranch "main" (Commit_Address commit1) (Commit_Tree commit1) root),
       snd (revertPath "r" "main" "a/b.txt" Entry_OBJECT restaged)).
Proof.
  pose proof (revertPath_spec "r" "main" "a/b.txt" Entry_OBJECT restaged
                (snd (revertPath "r" "main" "a/b.txt" Entry_OBJECT restaged)) main1)
    as H.
  destruct (H ltac:(reflexivity) ltac:(vm_compute; reflexivity)
              ltac:(vm_compute; reflexivity))
    as (s1 & b1 & entry & tomb & root & s2 & _ & _ & _ & _ & _ & Hread).
  exists root. exact Hread.
Defined.

Lemma revertPath_unknown_path_witness :
  revertPath "r" "main" "zzz" Entry_OBJECT staged = (Fail ErrNotFound, staged).
Proof.
  apply (revertPath_unknown_path "r" "main" "zzz" Entry_OBJECT staged
           (snd (partialCommit "main" staged))
           (mkBranch "main" (Commit_Address commit1) (Commit_Tree commit1)
              "#t.a/b.txt=#o.x,c.txt=#o.z")
           ErrNotFound ErrNotFound).
  - reflexivity.
  - vm_compute. reflexivity.
  - vm_compute. reflexivity.
  - vm_compute. reflexivity.
  - reflexivity.
  - vm_compute. reflexivity.
Defined.
End RestOnSamples.
